(** * CentipedeCPP: the game logic (BusinessLogic/GameLogic.hpp)

    A shallow embedding of class [GameLogic]: the tick loop, the gating of
    the update paths, the collision passes and the round life cycle.

    [GameLogic.hpp] is the only translation unit modelled from code.  The
    classes it calls into ([SaveState], [CentipedeSettings], [Bullet],
    [Starship], [MushroomMap], [CentipedeHead], [Signal], the input buffer,
    the menu and the UI) are declared elsewhere; they enter the development
    as an interface ([Entities], [Env]) and, where a concrete run is needed,
    as an instance written from the design document ([SpecModel]). *)

From stdpp Require Import base numbers list strings.

Local Open Scope Z_scope.

(** ** Machine integers

    [int] is a 32 bit two's complement integer, embedded in [Z].  Addition,
    subtraction and multiplication wrap around; division and remainder
    truncate toward zero and have no result for a zero divisor or for
    [INT_MIN / -1]. *)

Module Int.

Definition min : Z := - 2 ^ 31.
Definition max : Z := 2 ^ 31 - 1.

Definition in_range (z : Z) : Prop := min <= z <= max.

Definition wrap (z : Z) : Z := (z + 2 ^ 31) mod 2 ^ 32 - 2 ^ 31.

Definition add (a b : Z) : Z := wrap (a + b).
Definition sub (a b : Z) : Z := wrap (a - b).
Definition mul (a b : Z) : Z := wrap (a * b).

Inductive DivError := ByZero | Overflow.

(** Which error, if any, a division or remainder by [b] raises. *)
Definition div_error (a b : Z) : option DivError :=
  if b =? 0 then Some ByZero
  else if (a =? min) && (b =? -1) then Some Overflow
  else None.

End Int.

(** ** Enumerations *)

Inductive ScoreType := centipedeHit | mushroomKill | roundEnd.

(** [GameLogic.hpp] names [noHit] and [tailHit]; every other value of the
    enumeration is treated as a hit of the head. *)
Inductive CentipedeHit := noHit | tailHit | directHit.

Inductive CentipedeMovingDirection := cLeft | cRight.

Inductive Direction := up | down | left | right | none.

Record Position := { getLine : Z; getColumn : Z }.

Global Instance Position_eq_dec : EqDecision Position.
Proof. solve_decision. Defined.

Global Instance CentipedeHit_eq_dec : EqDecision CentipedeHit.
Proof. solve_decision. Defined.

Global Instance ScoreType_eq_dec : EqDecision ScoreType.
Proof. solve_decision. Defined.

Global Instance Direction_eq_dec : EqDecision Direction.
Proof. solve_decision. Defined.

(** The getters of [CentipedeSettings] that [GameLogic] reads.  The values
    are configuration; nothing below depends on a particular choice. *)
Record CentipedeSettings := {
  getGameTickLength : Z;
  getStarshipModuloGametickSlowdown : Z;
  getInitialCentipedeModuloGametickSlowdown : Z;
  getCentipedeSpeedIncrementRoundModuloSlowdown : Z;
  getCentipedeSpeedIncrementAmount : Z;
  getInitialCentipedeSize : Z;
  getCentipedeSizeIncrementRoundModuloSlowdown : Z;
  getCentipedeSizeIncrementAmount : Z;
  getCentipedeSpawnLine : Z;
  getCentipedeSpawnColumn : Z;
  getPointsForCentipedeHit : Z;
  getPointsForMushroomKill : Z;
  getPointsForRoundEnd : Z;
  getLiveLostBreakTime : Z;
  getInitialStarshipLine : Z;
  getInitialStarshipColumn : Z;
  getInitialPlayerHealth : Z;
}.

(** ** The game objects, as an interface

    One field per member function that [GameLogic] calls.  A member function
    that mutates its receiver returns the new receiver; [collide] of the
    mushroom map and of a centipede may also change the map they are
    handed. *)
Class Entities := {
  Bullet : Type;
  Starship : Type;
  MushroomMap : Type;
  CentipedeHead : Type;
  CentipedeBody : Type;

  (* bool Bullet::move(): false when the bullet has reached the top *)
  Bullet_move : Bullet -> bool * Bullet;
  Bullet_getPosition : Bullet -> Position;

  Starship_new : Z -> Z -> CentipedeSettings -> Starship;
  Starship_shoot : Starship -> Bullet;
  Starship_move : Direction -> MushroomMap -> Starship -> Starship;
  Starship_getPosition : Starship -> Position;

  MushroomMap_new : CentipedeSettings -> MushroomMap;
  MushroomMap_collide : Bullet -> MushroomMap -> bool * MushroomMap;
  MushroomMap_getMushroom : Z -> Z -> MushroomMap -> Z;

  (* CentipedeHead(line, column, movingDirection, settings, size) *)
  CentipedeHead_new :
    Z -> Z -> CentipedeMovingDirection -> CentipedeSettings -> Z -> CentipedeHead;
  (* CentipedeHead(splitOfBody_ptr) *)
  CentipedeHead_fromBody : CentipedeBody -> CentipedeHead;
  (* move(mushroomMap, centipedes, settings) *)
  CentipedeHead_move :
    MushroomMap -> list CentipedeHead -> CentipedeSettings -> CentipedeHead -> CentipedeHead;
  (* collide(bullet, mushroomMap): the hit indicator, the split-off tail
     (None is nullptr), the receiver afterwards, the map afterwards *)
  CentipedeHead_collide :
    Bullet -> MushroomMap -> CentipedeHead ->
    CentipedeHit * option CentipedeBody * CentipedeHead * MushroomMap;
  CentipedeHead_isAtPosition : Position -> CentipedeHead -> bool;
}.

(** ** Results of a computation

    A computation runs on a state [S] and either returns, or stops with an
    [Abort] in the state it had reached. *)

Inductive Abort :=
| DivisionByZero                (* x / 0, x % 0 *)
| DivisionOverflow              (* INT_MIN / -1, INT_MIN % -1 *)
| InvalidIterator               (* an iterator used outside its vector *)
| LogicError (what : string)    (* throw std::logic_error(what) *)
| OutOfFuel.                    (* the loop budget given to the model ran out *)

Inductive Result (S A : Type) :=
| Ok (a : A) (s : S)
| Stop (e : Abort) (s : S).

Arguments Ok {S A} a s.
Arguments Stop {S A} e s.

Definition M (S A : Type) : Type := S -> Result S A.

Definition ret {S A} (a : A) : M S A := fun s => Ok a s.

Definition bind {S A B} (m : M S A) (k : A -> M S B) : M S B :=
  fun s => match m s with
           | Ok a s' => k a s'
           | Stop e s' => Stop e s'
           end.

Definition get {S} : M S S := fun s => Ok s s.
Definition modify {S} (f : S -> S) : M S unit := fun s => Ok tt (f s).
Definition abort {S A} (e : Abort) : M S A := fun s => Stop e s.

Declare Scope game_scope.
Delimit Scope game_scope with game.
Notation "x <- m ;; k" := (bind m (fun x => k))
  (at level 100, m at next level, right associativity) : game_scope.
Notation "m ;;; k" := (bind m (fun _ => k))
  (at level 100, right associativity) : game_scope.
Local Open Scope game_scope.

Definition int_div {S} (a b : Z) : M S Z :=
  match Int.div_error a b with
  | Some Int.ByZero => abort DivisionByZero
  | Some Int.Overflow => abort DivisionOverflow
  | None => ret (Z.quot a b)
  end.

Definition int_rem {S} (a b : Z) : M S Z :=
  match Int.div_error a b with
  | Some Int.ByZero => abort DivisionByZero
  | Some Int.Overflow => abort DivisionOverflow
  | None => ret (Z.rem a b)
  end.

(** The member functions of [GameLogic] that run in the round loop's thread,
    named for the trace. *)
Inductive Op :=
| OspawnBulletIfNecessary
| OmoveBullets
| OcollideBulletsMushrooms
| OmoveStarshipIfNecessary
| OmoveCentipedes
| OcollideBulletsCentipedes
| OcollidePlayerCentipedes
| OprintGame
| OstartNextRound
| OloseGame.

Global Instance Op_eq_dec : EqDecision Op.
Proof. solve_decision. Defined.

(** What the input buffer, the menu and the random source answer when they
    are asked during one tick. *)
Record Input := {
  getAndResetShot : bool;
  getAndResetDirection : Direction;
  getAndResetBreakoutMenu : bool;
  runBreakoutMenu : bool;
}.

(** The answers of the collaborators over a whole game, by game tick and by
    round. *)
Record Env := {
  inputAt : Z -> Input;
  rollRandomWithChance : Z -> bool;
}.

(** The clock thread: [executeGameClock] running with these arguments. *)
Record Thread := { clockTickLength : Z }.

(** A freshly made [Signal]. *)
Inductive Signal := mkSignal.

(** ** The shape of a tick *)

(** The answer of [executePathForGametick] for a tick and a slowdown; [None]
    stands for a remainder that has no value. *)
Definition gate (gameTick moduloSlowdown : Z) : option bool :=
  match Int.div_error gameTick moduloSlowdown with
  | None => Some (Z.rem gameTick moduloSlowdown =? 0)
  | Some _ => None
  end.

(** The member functions that the three handlers of a tick call, from the
    answers of the gate. *)
Definition playerCalls (due : option bool) : list Op :=
  match due with
  | Some true =>
      [OspawnBulletIfNecessary; OmoveBullets; OcollideBulletsMushrooms;
       OmoveStarshipIfNecessary]
  | _ => []
  end.

Definition centipedeCalls (due : option bool) : list Op :=
  match due with
  | Some true => [OmoveCentipedes]
  | _ => []
  end.

Definition collisionCalls (playerDue centipedeDue : option bool) : list Op :=
  match playerDue, centipedeDue with
  | Some true, _ | Some false, Some true =>
      [OcollideBulletsCentipedes; OcollidePlayerCentipedes]
  | _, _ => []
  end.

(** The calls of one tick: the player path, the centipede path, the
    collision path and the rendering, each of them run or not. *)
Definition tickShape (ops : list Op) : Prop :=
  exists (a b c d : option bool) (printed : bool),
    ops = playerCalls a ++ centipedeCalls b ++ collisionCalls c d
          ++ (if printed then [OprintGame] else []).

(** ** The state *)

Section Game.

Context {E : Entities}.

(** The arguments of the [SaveState] constructor in [startNew], and the game
    tick. *)
Record SaveState := {
  getSettings : CentipedeSettings;
  getBullets : list Bullet;
  getStarship : Starship;
  getMushroomMap : MushroomMap;
  getCentipedes : list CentipedeHead;
  getCurrentCentipedeModuloGametickSlowdown : Z;
  getCurrentRound : Z;
  getScore : Z;
  getLives : Z;
  getGameTick : Z;
}.

(** What the run has done so far, oldest first.  The trace is written and
    never read: it records the order of the calls and the events that the
    statements below speak about. *)
Inductive Event :=
| Called (op : Op)
| Scored (type : ScoreType)
| LifeLost
| Visited (centipede : CentipedeHead) (bullets : list Bullet)
| Appended (centipede : CentipedeHead)
| Slept (milliseconds : Z).

(** A [GameLogic] object together with the [SaveState] its [saveState_ptr]
    points to.  Every [shared_ptr] that the member functions pass around
    ([centipedes_ptr], [bullets_ptr], ...) is an alias into that one
    [SaveState], so they all read and write [saveState] here.  The pointers
    to the collaborators never change after construction and are left to
    [Env]. *)
Record GameLogic := {
  saveState : SaveState;
  gameClock_thread_ptr : option Thread;
  hasDiedInRound : bool;
  trace : list Event;
}.

Definition onSaveState (f : SaveState -> SaveState) (g : GameLogic) : GameLogic :=
  {| saveState := f (saveState g);
     gameClock_thread_ptr := gameClock_thread_ptr g;
     hasDiedInRound := hasDiedInRound g;
     trace := trace g |}.

Definition set_gameClock_thread_ptr (t : option Thread) (g : GameLogic) : GameLogic :=
  {| saveState := saveState g;
     gameClock_thread_ptr := t;
     hasDiedInRound := hasDiedInRound g;
     trace := trace g |}.

Definition set_hasDiedInRound (b : bool) (g : GameLogic) : GameLogic :=
  {| saveState := saveState g;
     gameClock_thread_ptr := gameClock_thread_ptr g;
     hasDiedInRound := b;
     trace := trace g |}.

Definition log (e : Event) (g : GameLogic) : GameLogic :=
  {| saveState := saveState g;
     gameClock_thread_ptr := gameClock_thread_ptr g;
     hasDiedInRound := hasDiedInRound g;
     trace := trace g ++ [e] |}.

Definition bullets (g : GameLogic) : list Bullet := getBullets (saveState g).
Definition starship (g : GameLogic) : Starship := getStarship (saveState g).
Definition mushroomMap (g : GameLogic) : MushroomMap := getMushroomMap (saveState g).
Definition centipedes (g : GameLogic) : list CentipedeHead := getCentipedes (saveState g).
Definition settings (g : GameLogic) : CentipedeSettings := getSettings (saveState g).

Definition set_bullets (v : list Bullet) : GameLogic -> GameLogic :=
  onSaveState (fun s =>
    {| getSettings := getSettings s; getBullets := v; getStarship := getStarship s;
       getMushroomMap := getMushroomMap s; getCentipedes := getCentipedes s;
       getCurrentCentipedeModuloGametickSlowdown := getCurrentCentipedeModuloGametickSlowdown s;
       getCurrentRound := getCurrentRound s; getScore := getScore s;
       getLives := getLives s; getGameTick := getGameTick s |}).

Definition set_starship (v : Starship) : GameLogic -> GameLogic :=
  onSaveState (fun s =>
    {| getSettings := getSettings s; getBullets := getBullets s; getStarship := v;
       getMushroomMap := getMushroomMap s; getCentipedes := getCentipedes s;
       getCurrentCentipedeModuloGametickSlowdown := getCurrentCentipedeModuloGametickSlowdown s;
       getCurrentRound := getCurrentRound s; getScore := getScore s;
       getLives := getLives s; getGameTick := getGameTick s |}).

Definition set_mushroomMap (v : MushroomMap) : GameLogic -> GameLogic :=
  onSaveState (fun s =>
    {| getSettings := getSettings s; getBullets := getBullets s; getStarship := getStarship s;
       getMushroomMap := v; getCentipedes := getCentipedes s;
       getCurrentCentipedeModuloGametickSlowdown := getCurrentCentipedeModuloGametickSlowdown s;
       getCurrentRound := getCurrentRound s; getScore := getScore s;
       getLives := getLives s; getGameTick := getGameTick s |}).

Definition set_centipedes (v : list CentipedeHead) : GameLogic -> GameLogic :=
  onSaveState (fun s =>
    {| getSettings := getSettings s; getBullets := getBullets s; getStarship := getStarship s;
       getMushroomMap := getMushroomMap s; getCentipedes := v;
       getCurrentCentipedeModuloGametickSlowdown := getCurrentCentipedeModuloGametickSlowdown s;
       getCurrentRound := getCurrentRound s; getScore := getScore s;
       getLives := getLives s; getGameTick := getGameTick s |}).

(** *** Member functions of [SaveState] *)

(** Modelled from the spec: [SaveState] is not part of [GameLogic.hpp].  The
    centipede-path slowdown of the state is the one "recomputed each round":
    the setter stores its argument. *)
Definition setCurrentCentipedeModuloGametickSlowdown (v : Z) : GameLogic -> GameLogic :=
  onSaveState (fun s =>
    {| getSettings := getSettings s; getBullets := getBullets s; getStarship := getStarship s;
       getMushroomMap := getMushroomMap s; getCentipedes := getCentipedes s;
       getCurrentCentipedeModuloGametickSlowdown := v;
       getCurrentRound := getCurrentRound s; getScore := getScore s;
       getLives := getLives s; getGameTick := getGameTick s |}).

(** Modelled from the spec: [SaveState::incrementCurrentRound] is not part of
    [GameLogic.hpp]; "increment round counter". *)
Definition incrementCurrentRound : GameLogic -> GameLogic :=
  onSaveState (fun s =>
    {| getSettings := getSettings s; getBullets := getBullets s; getStarship := getStarship s;
       getMushroomMap := getMushroomMap s; getCentipedes := getCentipedes s;
       getCurrentCentipedeModuloGametickSlowdown := getCurrentCentipedeModuloGametickSlowdown s;
       getCurrentRound := getCurrentRound s + 1; getScore := getScore s;
       getLives := getLives s; getGameTick := getGameTick s |}).

(** Modelled from the spec: [SaveState::addToScore] is not part of
    [GameLogic.hpp]; "purely additive, no upper bound, no rounding". *)
Definition addToScore (points : Z) : GameLogic -> GameLogic :=
  onSaveState (fun s =>
    {| getSettings := getSettings s; getBullets := getBullets s; getStarship := getStarship s;
       getMushroomMap := getMushroomMap s; getCentipedes := getCentipedes s;
       getCurrentCentipedeModuloGametickSlowdown := getCurrentCentipedeModuloGametickSlowdown s;
       getCurrentRound := getCurrentRound s; getScore := getScore s + points;
       getLives := getLives s; getGameTick := getGameTick s |}).

(** Modelled from the spec: [SaveState::loseLive] is not part of
    [GameLogic.hpp]; "decrement lives by one". *)
Definition SaveState_loseLive : GameLogic -> GameLogic :=
  onSaveState (fun s =>
    {| getSettings := getSettings s; getBullets := getBullets s; getStarship := getStarship s;
       getMushroomMap := getMushroomMap s; getCentipedes := getCentipedes s;
       getCurrentCentipedeModuloGametickSlowdown := getCurrentCentipedeModuloGametickSlowdown s;
       getCurrentRound := getCurrentRound s; getScore := getScore s;
       getLives := getLives s - 1; getGameTick := getGameTick s |}).

(** Modelled from the spec: [SaveState::incrementGameTick] is not part of
    [GameLogic.hpp]; the tick counter is "a continuously incrementing
    per-game counter". *)
Definition incrementGameTick : GameLogic -> GameLogic :=
  onSaveState (fun s =>
    {| getSettings := getSettings s; getBullets := getBullets s; getStarship := getStarship s;
       getMushroomMap := getMushroomMap s; getCentipedes := getCentipedes s;
       getCurrentCentipedeModuloGametickSlowdown := getCurrentCentipedeModuloGametickSlowdown s;
       getCurrentRound := getCurrentRound s; getScore := getScore s;
       getLives := getLives s; getGameTick := getGameTick s + 1 |}).

Definition Game (A : Type) : Type := M GameLogic A.

(** ** Additional methods *)

(** [alive]: the player has lives left. *)
Definition alive (g : GameLogic) : bool := 0 <? getLives (saveState g).

(** [startGameClock]: throws when a clock thread exists; otherwise makes the
    signal and stores the handle of a thread running [executeGameClock]. *)
Definition startGameClock (gameTickLength : Z) : Game Signal := fun g =>
  match gameClock_thread_ptr g with
  | Some _ => Stop (LogicError "Game Clock already running.") g
  | None =>
      let gameClock := mkSignal in
      Ok gameClock
         (set_gameClock_thread_ptr (Some {| clockTickLength := gameTickLength |}) g)
  end.

(** [waitForGameClock]: joins the clock thread and resets the handle. *)
Definition waitForGameClock : GameLogic -> GameLogic :=
  set_gameClock_thread_ptr None.

(** [printGame]: hands the state to the UI. *)
Definition printGame : GameLogic -> GameLogic := log (Called OprintGame).

(** [executePathForGametick]: [gameTick % moduloSlowdown == 0]. *)
Definition executePathForGametick (gameTick moduloSlowdown : Z) : Game bool :=
  r <- int_rem gameTick moduloSlowdown ;;
  ret (r =? 0).

(** ** Low level logic methods *)

(** [increaseScore]: adds the points configured for the type of event. *)
Definition increaseScore (type : ScoreType) (g : GameLogic) : GameLogic :=
  let g := log (Scored type) g in
  match type with
  | centipedeHit => addToScore (getPointsForCentipedeHit (settings g)) g
  | mushroomKill => addToScore (getPointsForMushroomKill (settings g)) g
  | roundEnd => addToScore (getPointsForRoundEnd (settings g)) g
  end.

(** [loseLive]: one life less, the round is marked, every centipede is
    removed. *)
Definition loseLive (g : GameLogic) : GameLogic :=
  let g := log LifeLost g in
  let g := SaveState_loseLive g in
  let g := set_hasDiedInRound true g in
  set_centipedes [] g.

(** [spawnBulletIfNecessary] *)
Definition spawnBulletIfNecessary (inp : Input) (g : GameLogic) : GameLogic :=
  let g := log (Called OspawnBulletIfNecessary) g in
  let shot := getAndResetShot inp in
  if shot then set_bullets (bullets g ++ [Starship_shoot (starship g)]) g
  else g.

(** [moveBullets].  The iterator cuts the vector in two: [todo] starts at
    [bullet_ptr]; what lies before it has been moved already. *)
Fixpoint moveBulletsLoop (todo : list Bullet) : list Bullet :=
  match todo with
  | [] => []
  | bullet :: rest =>
      let '(hasMoved, bullet) := Bullet_move bullet in
      if negb hasMoved then moveBulletsLoop rest
      else bullet :: moveBulletsLoop rest
  end.

Definition moveBullets (g : GameLogic) : GameLogic :=
  let g := log (Called OmoveBullets) g in
  set_bullets (moveBulletsLoop (bullets g)) g.

(** [collideBulletsMushrooms].  [done] are the bullets before [bullet_ptr],
    [todo] those from [bullet_ptr] on; the vector is [done ++ todo]. *)
Fixpoint collideBulletsMushroomsLoop (done todo : list Bullet) (g : GameLogic) : GameLogic :=
  match todo with
  | [] => g
  | bullet :: rest =>
      let '(collided, map) := MushroomMap_collide bullet (mushroomMap g) in
      let g := set_mushroomMap map g in
      if collided then
        let g :=
          if MushroomMap_getMushroom (getLine (Bullet_getPosition bullet))
               (getColumn (Bullet_getPosition bullet)) (mushroomMap g) =? 0
          then increaseScore mushroomKill g
          else g in
        let g := set_bullets (done ++ rest) g in
        collideBulletsMushroomsLoop done rest g
      else collideBulletsMushroomsLoop (done ++ [bullet]) rest g
  end.

Definition collideBulletsMushrooms (g : GameLogic) : GameLogic :=
  let g := log (Called OcollideBulletsMushrooms) g in
  collideBulletsMushroomsLoop [] (bullets g) g.

(** [moveStarshipIfNecessary] *)
Definition moveStarshipIfNecessary (inp : Input) (g : GameLogic) : GameLogic :=
  let g := log (Called OmoveStarshipIfNecessary) g in
  let direction := getAndResetDirection inp in
  if decide (direction = none) then g
  else set_starship (Starship_move direction (mushroomMap g) (starship g)) g.

(** [moveCentipedes]: every centipede of the vector moves, in order, and sees
    the others where they are at that moment. *)
Definition moveCentipedes (g : GameLogic) : GameLogic :=
  let g := log (Called OmoveCentipedes) g in
  foldl (fun g i =>
           match centipedes g !! i with
           | Some centipede =>
               set_centipedes
                 (<[i := CentipedeHead_move (mushroomMap g) (centipedes g)
                           (settings g) centipede]> (centipedes g)) g
           | None => g
           end)
        g (seq 0 (length (centipedes g))).

(** [collideBulletsCentipedes], the scan of the bullets against the
    centipede at index [i] (the inner loop).  [done] are the bullets before
    [bullet_ptr], [todo] those from [bullet_ptr] on.  [centipede_ptr] is the
    index [i]: the code rebuilds the iterator from that index after every
    [push_back].  Returns [headHit]. *)
Fixpoint bulletLoop (i : nat) (done todo : list Bullet) : Game bool := fun g =>
  match todo with
  | [] => Ok false g
  | bullet :: rest =>
      match centipedes g !! i with
      | None => Stop InvalidIterator g
      | Some centipede =>
          let '(hitIndicator, splitOfTail_ptr, centipede, map) :=
            CentipedeHead_collide bullet (mushroomMap g) centipede in
          let g := set_centipedes (<[i := centipede]> (centipedes g)) g in
          let g := set_mushroomMap map g in
          match hitIndicator with
          | noHit => bulletLoop i (done ++ [bullet]) rest g
          | _ =>
              (* Bullet has hit -> remove from list. *)
              let g := set_bullets (done ++ rest) g in
              let g := increaseScore centipedeHit g in
              (* Create new centipede from split of tail if necessary. *)
              let g :=
                match splitOfTail_ptr with
                | Some splitOfBody_ptr =>
                    let newCentipedeFromSplitOfTail := CentipedeHead_fromBody splitOfBody_ptr in
                    log (Appended newCentipedeFromSplitOfTail)
                        (set_centipedes (centipedes g ++ [newCentipedeFromSplitOfTail]) g)
                | None => g
                end in
              match hitIndicator with
              | tailHit => bulletLoop i done rest g
              | _ => Ok true g
              end
          end
      end
  end.

(** The outer loop of [collideBulletsCentipedes]: [centipede_ptr] is compared
    with the end of the vector as it is at that moment. *)
Fixpoint centipedeLoop (fuel : nat) (i : nat) : Game unit := fun g =>
  if decide (i < length (centipedes g))%nat then
    match fuel with
    | O => Stop OutOfFuel g
    | S fuel =>
        let g :=
          match centipedes g !! i with
          | Some centipede => log (Visited centipede (bullets g)) g
          | None => g
          end in
        match bulletLoop i [] (bullets g) g with
        | Ok headHit g =>
            if headHit then
              (* Head needs to be removed. *)
              centipedeLoop fuel i (set_centipedes (delete i (centipedes g)) g)
            else centipedeLoop fuel (S i) g
        | Stop e g => Stop e g
        end
    end
  else Ok tt g.

(** Every turn of the outer loop that does not remove a bullet moves
    [centipede_ptr] closer to the end, and a turn appends at most as many
    centipedes as it removes bullets: the loop ends within
    [size(centipedes) + size(bullets)] turns. *)
Definition collideBulletsCentipedes : Game unit := fun g =>
  let g := log (Called OcollideBulletsCentipedes) g in
  centipedeLoop (length (centipedes g) + length (bullets g)) 0 g.

(** [collidePlayerCentipedes].  The range-based [for] fixes [begin] and [end]
    of the vector once, before the first turn, and has neither a check nor a
    [break].  [loseLive] clears that same vector; [clear] destroys the
    elements and leaves the storage of the vector where it is, so the loop
    goes on over the old range and copies, turn by turn, the elements that
    were there when it began: [range] is what is left of them.  (The
    iterators of the loop are invalid after [clear]; this is the loop of a
    build without checked iterators.) *)
Fixpoint playerLoop (range : list CentipedeHead) (starshipPosition : Position)
  : Game unit := fun g =>
  match range with
  | [] => Ok tt g
  | centipede :: range =>
      if negb (CentipedeHead_isAtPosition starshipPosition centipede) then
        (* No collision, game continues running. *)
        playerLoop range starshipPosition g
      else
        (* Collision player & centipede -> lose game. *)
        playerLoop range starshipPosition (loseLive g)
  end.

Definition collidePlayerCentipedes : Game unit := fun g =>
  let g := log (Called OcollidePlayerCentipedes) g in
  let starshipPosition := Starship_getPosition (starship g) in
  playerLoop (centipedes g) starshipPosition g.

(** [loseGame]: shows the game over screen. *)
Definition loseGame : GameLogic -> GameLogic := log (Called OloseGame).

(** ** High level logic methods *)

(** [handlePlayerControlledEntities], path 1. *)
Definition handlePlayerControlledEntities (inp : Input) : Game unit :=
  g <- get ;;
  let starshipModuloGametickSlowdown := getStarshipModuloGametickSlowdown (settings g) in
  let currentGameTick := getGameTick (saveState g) in
  due <- executePathForGametick currentGameTick starshipModuloGametickSlowdown ;;
  if negb due then ret tt
  else
    modify (spawnBulletIfNecessary inp) ;;;
    modify moveBullets ;;;
    modify collideBulletsMushrooms ;;;
    modify (moveStarshipIfNecessary inp).

(** [handleCentipedes], path 2. *)
Definition handleCentipedes : Game unit :=
  g <- get ;;
  let currentGameTick := getGameTick (saveState g) in
  let currentCentipedeModuloGametickSlowdown :=
    getCurrentCentipedeModuloGametickSlowdown (saveState g) in
  due <- executePathForGametick currentGameTick currentCentipedeModuloGametickSlowdown ;;
  if negb due then ret tt
  else modify moveCentipedes.

(** [handleGlobalCollisions].  The condition is [!a && !b]: [b] is evaluated
    only when [a] is false. *)
Definition handleGlobalCollisions : Game unit :=
  g <- get ;;
  let currentCentipedeModuloGametickSlowdown :=
    getCurrentCentipedeModuloGametickSlowdown (saveState g) in
  let starshipModuloGametickSlowdown := getStarshipModuloGametickSlowdown (settings g) in
  let currentGameTick := getGameTick (saveState g) in
  playerPath <- executePathForGametick currentGameTick starshipModuloGametickSlowdown ;;
  skip <-
    (if negb playerPath then
       centipedePath <- executePathForGametick currentGameTick
                          currentCentipedeModuloGametickSlowdown ;;
       ret (negb centipedePath)
     else ret false) ;;
  if (skip : bool) then ret tt
  else
    collideBulletsCentipedes ;;;
    collidePlayerCentipedes.

(** [continueRound] *)
Definition continueRound (centipedes : list CentipedeHead) : bool :=
  (0 <? length centipedes)%nat.

(** [calculateCentipedeSlowdown] *)
Definition calculateCentipedeSlowdown (settings : CentipedeSettings) (currentRound : Z) : Game Z :=
  let initialSlowdown := getInitialCentipedeModuloGametickSlowdown settings in
  numberOfSpeedups <-
    int_div currentRound (getCentipedeSpeedIncrementRoundModuloSlowdown settings) ;;
  let currentSlowdown :=
    Int.sub initialSlowdown
      (Int.mul numberOfSpeedups (getCentipedeSpeedIncrementAmount settings)) in
  ret currentSlowdown.

(** [calculateCentipedeSize] *)
Definition calculateCentipedeSize (settings : CentipedeSettings) (currentRound : Z) : Game Z :=
  let initialSize := getInitialCentipedeSize settings in
  numberOfSizeIncrements <-
    int_div currentRound (getCentipedeSizeIncrementRoundModuloSlowdown settings) ;;
  let currentSize :=
    Int.add initialSize
      (Int.mul numberOfSizeIncrements (getCentipedeSizeIncrementAmount settings)) in
  ret currentSize.

(** [getRandomCentipedeMovingDirection]; [goLeft] is the outcome of
    [rollRandomWithChance(1,2)]. *)
Definition getRandomCentipedeMovingDirection (goLeft : bool) : CentipedeMovingDirection :=
  if goLeft then cLeft else cRight.

(** [startNextRound] *)
Definition startNextRound (env : Env) : Game unit :=
  modify (log (Called OstartNextRound)) ;;;
  modify incrementCurrentRound ;;;
  g <- get ;;
  let currentRound := getCurrentRound (saveState g) in
  let settings_ptr := settings g in
  currentSlowdown <- calculateCentipedeSlowdown settings_ptr currentRound ;;
  modify (setCurrentCentipedeModuloGametickSlowdown currentSlowdown) ;;;
  currentSize <- calculateCentipedeSize settings_ptr currentRound ;;
  let movingDirection :=
    getRandomCentipedeMovingDirection (rollRandomWithChance env currentRound) in
  let line := getCentipedeSpawnLine settings_ptr in
  let column := getCentipedeSpawnColumn settings_ptr in
  let newCentipede := CentipedeHead_new line column movingDirection settings_ptr currentSize in
  modify (fun g => set_centipedes (centipedes g ++ [newCentipede]) g).

(** [breakGameIfNecessary].  When the menu ends the game, [loseLive] runs as
    long as the player is alive: once per life. *)
Definition breakGameIfNecessary (inp : Input) (g : GameLogic) : GameLogic :=
  if negb (getAndResetBreakoutMenu inp) then g
  else
    let resume := runBreakoutMenu inp in
    if resume then g
    else
      Nat.iter (Z.to_nat (getLives (saveState g)))
               (fun g => if alive g then loseLive g else g) g.

(** The body of the round loop: one game tick.  [gameClock->await()] only
    blocks until the clock thread signals; it changes nothing here. *)
Definition gameTick (env : Env) : Game unit :=
  modify incrementGameTick ;;;
  g <- get ;;
  let inp := inputAt env (getGameTick (saveState g)) in
  handlePlayerControlledEntities inp ;;;
  handleCentipedes ;;;
  handleGlobalCollisions ;;;
  modify printGame ;;;
  modify (breakGameIfNecessary inp).

(** The round loop, for at most [fuel] ticks. *)
Fixpoint playRound (fuel : nat) (env : Env) : Game unit := fun g =>
  if alive g && continueRound (centipedes g) then
    match fuel with
    | O => Stop OutOfFuel g
    | S fuel => (gameTick env ;;; playRound fuel env) g
    end
  else Ok tt g.

(** What [gameLoop] does after the round loop has ended. *)
Definition endRound (g : GameLogic) : GameLogic :=
  if negb (hasDiedInRound g) then increaseScore roundEnd g
  else
    (* Delay after the starship got hit. *)
    let delayLength := getLiveLostBreakTime (settings g) in
    log (Slept delayLength) g.

(** The outer game loop, for at most [rounds] rounds of at most [ticks] ticks
    each. *)
Fixpoint playRounds (rounds ticks : nat) (env : Env) : Game unit := fun g =>
  if alive g then
    match rounds with
    | O => Stop OutOfFuel g
    | S rounds =>
        (startNextRound env ;;;
         playRound ticks env ;;;
         modify endRound ;;;
         playRounds rounds ticks env) g
    end
  else Ok tt g.

(** [gameLoop] *)
Definition gameLoop (rounds ticks : nat) (env : Env) : Game unit :=
  g <- get ;;
  gameClock <- startGameClock (getGameTickLength (settings g)) ;;
  playRounds rounds ticks env ;;;
  g <- get ;;
  (if getLives (saveState g) <=? 0 then modify loseGame else ret tt) ;;;
  modify waitForGameClock.

(** ** Construction and control methods *)

(** The members that the game loop reads and that belong to the [GameLogic]
    object itself. *)
Record Members := {
  members_gameClock_thread_ptr : option Thread;
  members_hasDiedInRound : bool;
}.

(** The constructor assigns the four collaborators and sets
    [gameClock_thread_ptr] to [nullptr].  It does not assign
    [hasDiedInRound]: the member keeps whatever its storage held, here
    [indeterminate]. *)
Definition GameLogic_new (indeterminate : bool) : Members :=
  {| members_gameClock_thread_ptr := None;
     members_hasDiedInRound := indeterminate |}.

(** [continueGame] *)
Definition continueGame (rounds ticks : nat) (env : Env) (this : Members) (state : SaveState)
  : Result GameLogic unit :=
  gameLoop rounds ticks env
    {| saveState := state;
       gameClock_thread_ptr := members_gameClock_thread_ptr this;
       hasDiedInRound := members_hasDiedInRound this;
       trace := [] |}.

(** The state that [startNew] builds from the settings. *)
Definition newState (settings_ptr : CentipedeSettings) : SaveState :=
  {| getSettings := settings_ptr;
     getBullets := [];
     getStarship := Starship_new (getInitialStarshipLine settings_ptr)
                      (getInitialStarshipColumn settings_ptr) settings_ptr;
     getMushroomMap := MushroomMap_new settings_ptr;
     getCentipedes := [];
     getCurrentCentipedeModuloGametickSlowdown :=
       getInitialCentipedeModuloGametickSlowdown settings_ptr;
     getCurrentRound := 0;
     getScore := 0;
     getLives := getInitialPlayerHealth settings_ptr;
     getGameTick := 0 |}.

(** [startNew]; [settings_ptr] is the default constructed
    [CentipedeSettings]. *)
Definition startNew (rounds ticks : nat) (env : Env) (settings_ptr : CentipedeSettings)
    (this : Members) : Result GameLogic unit :=
  continueGame rounds ticks env this (newState settings_ptr).

(** ** Reading a run *)

(** The state in which a computation ended, whether it returned or
    stopped. *)
Definition final {A} (r : Result GameLogic A) : GameLogic :=
  match r with
  | Ok _ g => g
  | Stop _ g => g
  end.

(** The events that were added to the trace between [g] and [g']. *)
Definition eventsSince (g g' : GameLogic) : list Event :=
  drop (length (trace g)) (trace g').

(** The member functions called, in order. *)
Definition calls (evs : list Event) : list Op :=
  omap (fun e => match e with Called op => Some op | _ => None end) evs.

(** The centipedes appended to the collection, in order. *)
Definition appended (evs : list Event) : list CentipedeHead :=
  omap (fun e => match e with Appended c => Some c | _ => None end) evs.

(** The score events, in order. *)
Definition scored (evs : list Event) : list ScoreType :=
  omap (fun e => match e with Scored t => Some t | _ => None end) evs.

(** The number of life-loss events. *)
Definition livesLost (evs : list Event) : nat :=
  length (List.filter (fun e => match e with LifeLost => true | _ => false end) evs).

Definition lifeLostIn (evs : list Event) : bool :=
  existsb (fun e => match e with LifeLost => true | _ => false end) evs.

(** The events of the round life cycle: the start of a round, the points,
    the lives lost and the delay after a death. *)
Definition lifeCycle (evs : list Event) : list Event :=
  omap (fun e => match e with
                 | Called OstartNextRound | Scored _ | LifeLost | Slept _ => Some e
                 | _ => None
                 end) evs.

(** Movement, collision evaluation and rendering among the member
    functions. *)
Definition isMovement (op : Op) : bool :=
  match op with
  | OmoveBullets | OmoveStarshipIfNecessary | OmoveCentipedes => true
  | _ => false
  end.

Definition isCollision (op : Op) : bool :=
  match op with
  | OcollideBulletsMushrooms | OcollideBulletsCentipedes | OcollidePlayerCentipedes => true
  | _ => false
  end.

(** The collisions of [handleGlobalCollisions]. *)
Definition isGlobalCollision (op : Op) : bool :=
  match op with
  | OcollideBulletsCentipedes | OcollidePlayerCentipedes => true
  | _ => false
  end.

Definition isRendering (op : Op) : bool :=
  match op with
  | OprintGame => true
  | _ => false
  end.

(** Every call of kind [P] comes before every call of kind [Q]. *)
Definition precedes (P Q : Op -> bool) (ops : list Op) : Prop :=
  forall i j a b,
    ops !! i = Some a -> ops !! j = Some b -> P a = true -> Q b = true -> (i < j)%nat.

(** The same, computed: no call of kind [P] at or after a call of kind
    [Q]. *)
Fixpoint precedesb (P Q : Op -> bool) (ops : list Op) : bool :=
  match ops with
  | [] => true
  | op :: ops =>
      (if Q op then negb (P op) && forallb (fun a => negb (P a)) ops else true)
      && precedesb P Q ops
  end.

(** All movement before any collision evaluation, and all collision
    evaluation before the rendering. *)
Definition movementThenCollisionThenRendering (ops : list Op) : Prop :=
  precedes isMovement isCollision ops /\ precedes isCollision isRendering ops.

(** The events of a scan of the bullets: points and appended centipedes. *)
Definition scanEvents (evs : list Event) : Prop :=
  forall e, e ∈ evs -> (exists t, e = Scored t) \/ (exists c, e = Appended c).

(** The events of a whole pass: those of the scans, and the visits. *)
Definition passEvents (evs : list Event) : Prop :=
  forall e, e ∈ evs ->
    (exists t, e = Scored t) \/ (exists c, e = Appended c) \/ (exists c bs, e = Visited c bs).

(** Every centipede appended is visited later on. *)
Definition appendedAreVisited (evs : list Event) : Prop :=
  forall pre n post, evs = pre ++ Appended n :: post -> exists bs, Visited n bs ∈ post.

(** How a state [g'] reached from [g] relates to it: the settings and the
    clock handle are the same, the trace has grown by events whose calls are
    [cs], and [hasDiedInRound] has changed only by being set at a
    life-loss. *)
Record Step (cs : list Op) (g g' : GameLogic) : Prop := {
  step_settings : settings g' = settings g;
  step_thread : gameClock_thread_ptr g' = gameClock_thread_ptr g;
  step_events :
    exists evs, trace g' = trace g ++ evs /\ calls evs = cs /\
                hasDiedInRound g' = hasDiedInRound g || lifeLostIn evs;
}.

(** ** Keeping the books *)

(** The number of frames rendered: the calls of [printGame]. *)
Definition framesShown (evs : list Event) : nat :=
  length (List.filter (fun op => match op with OprintGame => true | _ => false end)
                      (calls evs)).

(** The points that [increaseScore] adds for a type of event. *)
Definition pointsFor (s : CentipedeSettings) (type : ScoreType) : Z :=
  match type with
  | centipedeHit => getPointsForCentipedeHit s
  | mushroomKill => getPointsForMushroomKill s
  | roundEnd => getPointsForRoundEnd s
  end.

(** The points of a sequence of score events. *)
Definition pointsOf (s : CentipedeSettings) (types : list ScoreType) : Z :=
  foldr (fun type sum => pointsFor s type + sum) 0 types.

(** The score and the lives of [g'] are those of [g], plus the points of the
    score events and minus the life-loss events recorded in between. *)
Record Account (g g' : GameLogic) : Prop := {
  account_settings : settings g' = settings g;
  account_events :
    exists evs, trace g' = trace g ++ evs /\
                getScore (saveState g') =
                  getScore (saveState g) + pointsOf (settings g) (scored evs) /\
                getLives (saveState g') =
                  getLives (saveState g) - Z.of_nat (livesLost evs);
}.

(** An [Account] that leaves the game tick, the round and the centipede-path
    slowdown alone. *)
Record Ledger (g g' : GameLogic) : Prop := {
  ledger_account : Account g g';
  ledger_tick : getGameTick (saveState g') = getGameTick (saveState g);
  ledger_round : getCurrentRound (saveState g') = getCurrentRound (saveState g);
  ledger_slowdown :
    getCurrentCentipedeModuloGametickSlowdown (saveState g') =
    getCurrentCentipedeModuloGametickSlowdown (saveState g);
}.

(** The state [g] after the bullets, the starship, the mushroom map and the
    centipedes have been replaced, [points] have been added to the score and
    [evs] have been recorded.  Everything else (settings, round, slowdown,
    game tick, lives, clock handle, [hasDiedInRound]) is as in [g]. *)
Definition updated (bs : list Bullet) (ship : Starship) (map : MushroomMap)
    (cs : list CentipedeHead) (points : Z) (evs : list Event) (g : GameLogic) : GameLogic :=
  {| saveState :=
       {| getSettings := getSettings (saveState g);
          getBullets := bs;
          getStarship := ship;
          getMushroomMap := map;
          getCentipedes := cs;
          getCurrentCentipedeModuloGametickSlowdown :=
            getCurrentCentipedeModuloGametickSlowdown (saveState g);
          getCurrentRound := getCurrentRound (saveState g);
          getScore := getScore (saveState g) + points;
          getLives := getLives (saveState g);
          getGameTick := getGameTick (saveState g) |};
     gameClock_thread_ptr := gameClock_thread_ptr g;
     hasDiedInRound := hasDiedInRound g;
     trace := trace g ++ evs |}.

End Game.

Arguments SaveState E : clear implicits.
Arguments GameLogic E : clear implicits.
Arguments Event E : clear implicits.

(** ** The game objects, from the design document

    The classes behind [Entities] are not part of [GameLogic.hpp].  This
    module writes them out from the design document, on a playfield of
    [lines] by [columns] cells whose line 0 is the top. *)

Module SpecModel.

(** Modelled from the spec: class [Bullet] is missing.  "Bullet: position,
    moves one cell toward the top boundary per activation; removed when it
    exits bounds." *)
Definition bullet_move (b : Position) : bool * Position :=
  if getLine b <=? 0 then (false, b)
  else (true, {| getLine := getLine b - 1; getColumn := getColumn b |}).

(** Modelled from the spec: class [MushroomMap] is missing.  "Grid of
    per-cell durability counters"; a cell outside the grid holds nothing. *)
Definition getMushroom (line column : Z) (map : list (list Z)) : Z :=
  if (line <? 0) || (column <? 0) then 0
  else default 0 (default [] (map !! Z.to_nat line) !! Z.to_nat column).

(** Modelled from the spec: [MushroomMap::collide] is missing.  "For each
    bullet overlapping an occupied mushroom cell, decrement that cell's
    durability by one and remove the bullet." *)
Definition mushroom_collide (b : Position) (map : list (list Z)) : bool * list (list Z) :=
  let d := getMushroom (getLine b) (getColumn b) map in
  if 0 <? d then
    (true,
     alter (fun row => <[Z.to_nat (getColumn b) := d - 1]> row) (Z.to_nat (getLine b)) map)
  else (false, map).

Definition moveTo (d : Direction) (p : Position) : Position :=
  match d with
  | up => {| getLine := getLine p - 1; getColumn := getColumn p |}
  | down => {| getLine := getLine p + 1; getColumn := getColumn p |}
  | left => {| getLine := getLine p; getColumn := getColumn p - 1 |}
  | right => {| getLine := getLine p; getColumn := getColumn p + 1 |}
  | none => p
  end.

Definition inBounds (lines columns : Z) (p : Position) : bool :=
  (0 <=? getLine p) && (getLine p <? lines) && (0 <=? getColumn p) && (getColumn p <? columns).

(** Modelled from the spec: class [Starship] is missing.  "Moves at most one
    cell per activation in a commanded direction, blocked by mushroom cells
    and bounds." *)
Definition starship_move (lines columns : Z) (d : Direction) (map : list (list Z))
    (p : Position) : Position :=
  let target := moveTo d p in
  if inBounds lines columns target && (getMushroom (getLine target) (getColumn target) map =? 0)
  then target else p.

(** Modelled from the spec: class [CentipedeHead] is missing.  "Ordered
    sequence of segments from head (index 0) to tail; each segment has a
    position and a shared moving-direction/size note." *)
Record Chain := {
  segments : list Position;
  movingDirection : CentipedeMovingDirection;
}.

(** Modelled from the spec: the constructor of [CentipedeHead] is missing.
    "Spawn one new chain of that size at the configured spawn cell." *)
Definition chain_new (line column : Z) (d : CentipedeMovingDirection) (size : Z) : Chain :=
  let p := {| getLine := line; getColumn := column |} in
  {| segments := p :: replicate (Z.to_nat (size - 1)) p; movingDirection := d |}.

Definition reverse (d : CentipedeMovingDirection) : CentipedeMovingDirection :=
  match d with cLeft => cRight | cRight => cLeft end.

(** Modelled from the spec: [CentipedeHead::move] is missing.  "Every chain's
    head advances one cell in its current direction; on reaching a wall or a
    mushroom-occupied cell the head instead descends one row and reverses
    direction; trailing segments each move into the cell most recently
    vacated by the segment ahead of them." *)
Definition chain_move (columns : Z) (map : list (list Z)) (c : Chain) : Chain :=
  match segments c with
  | [] => c
  | head :: _ =>
      let ahead := moveTo (match movingDirection c with cLeft => left | cRight => right end) head in
      if (0 <=? getColumn ahead) && (getColumn ahead <? columns)
         && (getMushroom (getLine ahead) (getColumn ahead) map =? 0)
      then {| segments := ahead :: removelast (segments c);
              movingDirection := movingDirection c |}
      else {| segments := moveTo down head :: removelast (segments c);
              movingDirection := reverse (movingDirection c) |}
  end.

(** The depth of the first segment, from the head, that lies at [p]. *)
Fixpoint struck (p : Position) (segs : list Position) : option nat :=
  match segs with
  | [] => None
  | s :: segs => if decide (s = p) then Some O else S <$> struck p segs
  end.

(** Modelled from the spec: [CentipedeHead::collide] is missing.  "For each
    bullet test against chain segments head-to-tail: no hit; tail hit (struck
    segment is not the head): remove the struck segment and all segments
    behind it from the chain.  If segments existed behind the struck one, the
    removed sub-sequence becomes a brand-new, independently-moving chain; if
    the struck segment was the last one, no new chain is created; head hit
    (struck segment is the head)", after which the whole chain goes.  "A tail
    hit at depth d removes segments [d, L-1]; produces exactly one new chain
    of length L-1-d when d < L-1, and none when d == L-1." *)
Definition chain_collide (b : Position) (map : list (list Z)) (c : Chain)
  : CentipedeHit * option Chain * Chain * list (list Z) :=
  match struck b (segments c) with
  | None => (noHit, None, c, map)
  | Some O => (directHit, None, c, map)
  | Some d =>
      let behind := drop (S d) (segments c) in
      (tailHit,
       match behind with
       | [] => None
       | _ => Some {| segments := behind; movingDirection := movingDirection c |}
       end,
       {| segments := take d (segments c); movingDirection := movingDirection c |},
       map)
  end.

(** Modelled from the spec: [CentipedeHead::isAtPosition] is missing.  The
    collision with the starship is for "every chain whose head occupies the
    same cell as the starship". *)
Definition chain_isAtPosition (p : Position) (c : Chain) : bool :=
  match segments c with
  | [] => false
  | head :: _ => bool_decide (head = p)
  end.

(** Modelled from the spec: the classes of the game objects are missing; the
    instance collects the definitions above.  A shot spawns the bullet in the
    cell of the starship, and a new map is empty. *)
Definition entities (lines columns : Z) : Entities :=
  {| Bullet := Position;
     Starship := Position;
     MushroomMap := list (list Z);
     CentipedeHead := Chain;
     CentipedeBody := Chain;
     Bullet_move := bullet_move;
     Bullet_getPosition := fun b => b;
     Starship_new := fun line column _ => {| getLine := line; getColumn := column |};
     Starship_shoot := fun s => s;
     Starship_move := starship_move lines columns;
     Starship_getPosition := fun s => s;
     MushroomMap_new := fun _ => replicate (Z.to_nat lines) (replicate (Z.to_nat columns) 0);
     MushroomMap_collide := mushroom_collide;
     MushroomMap_getMushroom := getMushroom;
     CentipedeHead_new := fun line column d _ size => chain_new line column d size;
     CentipedeHead_fromBody := fun body => body;
     CentipedeHead_move := fun map _ _ c => chain_move columns map c;
     CentipedeHead_collide := chain_collide;
     CentipedeHead_isAtPosition := chain_isAtPosition |}.

End SpecModel.

(** ** Concrete games

    Settings, inputs and states on which the model is run. *)

Module Scenario.

Import SpecModel.

(** Both paths run on every tick; a centipede is one segment long. *)
Definition quick : CentipedeSettings :=
  {| getGameTickLength := 50;
     getStarshipModuloGametickSlowdown := 1;
     getInitialCentipedeModuloGametickSlowdown := 1;
     getCentipedeSpeedIncrementRoundModuloSlowdown := 10;
     getCentipedeSpeedIncrementAmount := 0;
     getInitialCentipedeSize := 1;
     getCentipedeSizeIncrementRoundModuloSlowdown := 10;
     getCentipedeSizeIncrementAmount := 1;
     getCentipedeSpawnLine := 0;
     getCentipedeSpawnColumn := 0;
     getPointsForCentipedeHit := 10;
     getPointsForMushroomKill := 5;
     getPointsForRoundEnd := 100;
     getLiveLostBreakTime := 1000;
     getInitialStarshipLine := 1;
     getInitialStarshipColumn := 1;
     getInitialPlayerHealth := 3 |}.

(** The centipede path starts at slowdown 5 and gains one step of speed
    every third round. *)
Definition paced : CentipedeSettings :=
  {| getGameTickLength := 50;
     getStarshipModuloGametickSlowdown := 2;
     getInitialCentipedeModuloGametickSlowdown := 5;
     getCentipedeSpeedIncrementRoundModuloSlowdown := 3;
     getCentipedeSpeedIncrementAmount := 1;
     getInitialCentipedeSize := 10;
     getCentipedeSizeIncrementRoundModuloSlowdown := 4;
     getCentipedeSizeIncrementAmount := 2;
     getCentipedeSpawnLine := 0;
     getCentipedeSpawnColumn := 0;
     getPointsForCentipedeHit := 10;
     getPointsForMushroomKill := 5;
     getPointsForRoundEnd := 100;
     getLiveLostBreakTime := 1000;
     getInitialStarshipLine := 9;
     getInitialStarshipColumn := 5;
     getInitialPlayerHealth := 3 |}.

Definition idle : Input :=
  {| getAndResetShot := false; getAndResetDirection := none;
     getAndResetBreakoutMenu := false; runBreakoutMenu := true |}.

Definition fire : Input :=
  {| getAndResetShot := true; getAndResetDirection := none;
     getAndResetBreakoutMenu := false; runBreakoutMenu := true |}.

(** The player shoots on tick [t] and does nothing else; every centipede
    starts to the right. *)
Definition shootAt (t : Z) : Env :=
  {| inputAt := fun tick => if tick =? t then fire else idle;
     rollRandomWithChance := fun _ => false |}.

(** A playfield of three lines and two columns: a centipede that starts at
    the top left reaches the cell (1,1) of the starship on its second
    move. *)
Definition small : Entities := entities 3 2.

(** A playfield of ten by ten. *)
Definition field : Entities := entities 10 10.

Definition cell (line column : Z) : Position := {| getLine := line; getColumn := column |}.

(** A state of a running game on [field], in round [round] at tick [tick],
    with the given centipedes and bullets and the starship at (9,5). *)
Definition playing (s : CentipedeSettings) (round tick : Z)
    (cs : list Chain) (bs : list Position) : GameLogic field :=
  {| saveState :=
       {| getSettings := s;
          getBullets := bs : list (@Bullet field);
          getStarship := cell 9 5 : @Starship field;
          getMushroomMap := @MushroomMap_new field s;
          getCentipedes := cs : list (@CentipedeHead field);
          getCurrentCentipedeModuloGametickSlowdown :=
            getInitialCentipedeModuloGametickSlowdown s;
          getCurrentRound := round;
          getScore := 0;
          getLives := 3;
          getGameTick := tick |};
     gameClock_thread_ptr := Some {| clockTickLength := getGameTickLength s |};
     hasDiedInRound := false;
     trace := [] |}.

(** A centipede of five segments in line 0, its head at column 4. *)
Definition five : Chain :=
  {| segments := [cell 0 4; cell 0 3; cell 0 2; cell 0 1; cell 0 0];
     movingDirection := cRight |}.

(** Two centipedes of one segment on the cell of the starship. *)
Definition onStarship : list Chain :=
  [ {| segments := [cell 9 5]; movingDirection := cRight |};
    {| segments := [cell 9 5]; movingDirection := cLeft |} ].

(** Two bullets in line 0 under the centipede [five]: the first strikes the
    segment at depth 2. *)
Definition twoBullets : GameLogic field :=
  playing quick 1 1 [five] [cell 0 2; cell 0 1].

(** The first bullet strikes the head of [five]. *)
Definition headShot : GameLogic field :=
  playing quick 1 1 [five] [cell 0 4; cell 0 2].

(** Two centipedes on the cell of the starship. *)
Definition collision : GameLogic field :=
  playing quick 1 1 onStarship [].

(** A state whose next tick runs both paths. *)
Definition bothDue : GameLogic field :=
  playing quick 1 1 [five] [].

(** Tick 4 with player slowdown 2 and centipede slowdown 5. *)
Definition gated : GameLogic field :=
  playing paced 1 4 [five] [].

(** The end of round 5. *)
Definition round5 : GameLogic field :=
  playing paced 5 20 [] [].

(** The state in which [startNew] enters the outer game loop on [small],
    with the clock started. *)
Definition started (indeterminate : bool) : GameLogic small :=
  {| saveState := newState quick;
     gameClock_thread_ptr := Some {| clockTickLength := getGameTickLength quick |};
     hasDiedInRound := members_hasDiedInRound (GameLogic_new indeterminate);
     trace := [] |}.

(** The first round of that game when the player shoots on tick 1: the
    state when the round loop has ended. *)
Definition firstRound (indeterminate : bool) : GameLogic small :=
  final ((startNextRound (shootAt 1) ;;; playRound 10 (shootAt 1)) (started indeterminate)).

(** The player leaves the game through the breakout menu. *)
Definition quit : Input :=
  {| getAndResetShot := false; getAndResetDirection := none;
     getAndResetBreakoutMenu := true; runBreakoutMenu := false |}.

(** The player leaves through the menu on tick [t] and does nothing else. *)
Definition quitAt (t : Z) : Env :=
  {| inputAt := fun tick => if tick =? t then quit else idle;
     rollRandomWithChance := fun _ => false |}.

(** The start of round 15 with [paced]: the slowdown of the centipede path
    has come down to [5 - 15/3 = 0]. *)
Definition stalled : GameLogic field :=
  final (startNextRound (shootAt 0) (playing paced 14 99 [] [])).

(** [paced] with a size increment interval of 0. *)
Definition unsized : CentipedeSettings :=
  {| getGameTickLength := 50;
     getStarshipModuloGametickSlowdown := 2;
     getInitialCentipedeModuloGametickSlowdown := 5;
     getCentipedeSpeedIncrementRoundModuloSlowdown := 3;
     getCentipedeSpeedIncrementAmount := 1;
     getInitialCentipedeSize := 10;
     getCentipedeSizeIncrementRoundModuloSlowdown := 0;
     getCentipedeSizeIncrementAmount := 2;
     getCentipedeSpawnLine := 0;
     getCentipedeSpawnColumn := 0;
     getPointsForCentipedeHit := 10;
     getPointsForMushroomKill := 5;
     getPointsForRoundEnd := 100;
     getLiveLostBreakTime := 1000;
     getInitialStarshipLine := 9;
     getInitialStarshipColumn := 5;
     getInitialPlayerHealth := 3 |}.

(** A new game on [small] before [gameLoop] is entered: no clock runs. *)
Definition fresh : GameLogic small :=
  {| saveState := newState quick;
     gameClock_thread_ptr := None;
     hasDiedInRound := false;
     trace := [] |}.

(** A game that was lost: the state of [collision] without lives and without
    a clock. *)
Definition lost : GameLogic field :=
  {| saveState :=
       {| getSettings := quick;
          getBullets := [] : list (@Bullet field);
          getStarship := cell 9 5 : @Starship field;
          getMushroomMap := @MushroomMap_new field quick;
          getCentipedes := [] : list (@CentipedeHead field);
          getCurrentCentipedeModuloGametickSlowdown := 1;
          getCurrentRound := 3;
          getScore := 120;
          getLives := 0;
          getGameTick := 57 |};
     gameClock_thread_ptr := None;
     hasDiedInRound := true;
     trace := [] |}.

End Scenario.

(** Unfolds the setters and getters of the state. *)
Ltac state :=
  cbn [centipedes bullets mushroomMap starship settings
       set_centipedes set_bullets set_mushroomMap set_starship
       set_hasDiedInRound set_gameClock_thread_ptr
       setCurrentCentipedeModuloGametickSlowdown incrementCurrentRound
       incrementGameTick addToScore SaveState_loseLive
       increaseScore loseLive printGame loseGame waitForGameClock
       onSaveState log
       saveState gameClock_thread_ptr hasDiedInRound trace
       getSettings getBullets getStarship getMushroomMap getCentipedes
       getCurrentCentipedeModuloGametickSlowdown getCurrentRound getScore
       getLives getGameTick] in *;
  unfold centipedes, bullets, mushroomMap, starship, settings in *.

(** * Facts *)

(** ** Machine integers *)

Lemma Int_wrap_in_range z : Int.in_range z -> Int.wrap z = z.
Proof.
  unfold Int.in_range, Int.wrap, Int.min, Int.max. intros H.
  rewrite Z.mod_small; lia.
Qed.

Lemma Int_div_error_None a b :
  b <> 0 -> (a <> Int.min \/ b <> -1) -> Int.div_error a b = None.
Proof.
  intros Hb Hov. unfold Int.div_error.
  destruct (Z.eqb_spec b 0) as [|_]; [contradiction|].
  destruct (Z.eqb_spec a Int.min), (Z.eqb_spec b (-1)); simpl; try reflexivity.
  destruct Hov; contradiction.
Qed.

(** Truncated and floored remainder vanish together. *)
Lemma rem_zero_iff_mod_zero a b : b <> 0 -> (Z.rem a b = 0 <-> a mod b = 0).
Proof.
  intros Hb. rewrite Z.rem_divide by assumption.
  rewrite Z.mod_divide by assumption. reflexivity.
Qed.

Section Facts.

Context {E : Entities}.

Implicit Types g : GameLogic E.
Implicit Types evs : list (Event E).

(** ** Traces *)

Lemma calls_app evs1 evs2 : calls (evs1 ++ evs2) = calls evs1 ++ calls evs2.
Proof. apply omap_app. Qed.

Lemma appended_app evs1 evs2 : appended (evs1 ++ evs2) = appended evs1 ++ appended evs2.
Proof. apply omap_app. Qed.

Lemma scored_app evs1 evs2 : scored (evs1 ++ evs2) = scored evs1 ++ scored evs2.
Proof. apply omap_app. Qed.

Lemma lifeLostIn_app evs1 evs2 :
  lifeLostIn (evs1 ++ evs2) = lifeLostIn evs1 || lifeLostIn evs2.
Proof. apply existsb_app. Qed.

Lemma eventsSince_app g g' evs : trace g' = trace g ++ evs -> eventsSince g g' = evs.
Proof. intros H. unfold eventsSince. rewrite H. apply drop_app_length. Qed.

Lemma lifeLostIn_false evs : lifeLostIn evs = false <-> LifeLost ∉ evs.
Proof.
  induction evs as [|e evs IH]; simpl.
  - split; [intros _ H; inversion H | reflexivity].
  - rewrite not_elem_of_cons, <- IH.
    destruct e; simpl; split; try discriminate;
      try (intros H; split; [discriminate | exact H]); try tauto.
Qed.

(** ** The relation [Step] *)

Lemma Step_refl g : Step [] g g.
Proof.
  constructor; try reflexivity.
  exists []. rewrite app_nil_r, orb_false_r. auto.
Qed.

Lemma Step_trans cs1 cs2 g g1 g2 :
  Step cs1 g g1 -> Step cs2 g1 g2 -> Step (cs1 ++ cs2) g g2.
Proof.
  intros [Hs1 Ht1 (e1 & He1 & Hc1 & Hf1)] [Hs2 Ht2 (e2 & He2 & Hc2 & Hf2)].
  constructor.
  - congruence.
  - congruence.
  - exists (e1 ++ e2). rewrite He2, He1, app_assoc, calls_app, lifeLostIn_app.
    rewrite Hf2, Hf1, orb_assoc. subst. auto.
Qed.

Lemma Step_calls cs cs' g g' : Step cs g g' -> cs = cs' -> Step cs' g g'.
Proof. intros H <-. exact H. Qed.

Lemma Step_events cs g g' :
  Step cs g g' ->
  trace g' = trace g ++ eventsSince g g' /\ calls (eventsSince g g') = cs /\
  hasDiedInRound g' = hasDiedInRound g || lifeLostIn (eventsSince g g').
Proof.
  intros [_ _ (evs & He & Hc & Hf)].
  rewrite (eventsSince_app _ _ _ He). auto.
Qed.

Lemma Step_log e g :
  match e with LifeLost => False | _ => True end -> Step (calls [e]) g (log e g).
Proof.
  intros He. constructor; try reflexivity.
  exists [e]. repeat split. destruct e; simpl; try contradiction; rewrite orb_false_r; reflexivity.
Qed.

Lemma Step_onSaveState f g :
  (forall s, getSettings (f s) = getSettings s) -> Step [] g (onSaveState f g).
Proof.
  intros Hf. constructor; simpl; try reflexivity.
  - unfold settings. simpl. apply Hf.
  - exists []. rewrite app_nil_r, orb_false_r. auto.
Qed.

Lemma Step_set_bullets v g : Step [] g (set_bullets v g).
Proof. apply Step_onSaveState. reflexivity. Qed.

Lemma Step_set_starship v g : Step [] g (set_starship v g).
Proof. apply Step_onSaveState. reflexivity. Qed.

Lemma Step_set_mushroomMap v g : Step [] g (set_mushroomMap v g).
Proof. apply Step_onSaveState. reflexivity. Qed.

Lemma Step_set_centipedes v g : Step [] g (set_centipedes v g).
Proof. apply Step_onSaveState. reflexivity. Qed.

Lemma Step_setSlowdown v g : Step [] g (setCurrentCentipedeModuloGametickSlowdown v g).
Proof. apply Step_onSaveState. reflexivity. Qed.

Lemma Step_incrementCurrentRound g : Step [] g (incrementCurrentRound g).
Proof. apply Step_onSaveState. reflexivity. Qed.

Lemma Step_incrementGameTick g : Step [] g (incrementGameTick g).
Proof. apply Step_onSaveState. reflexivity. Qed.

Lemma Step_addToScore p g : Step [] g (addToScore p g).
Proof. apply Step_onSaveState. reflexivity. Qed.

Lemma Step_increaseScore type g : Step [] g (increaseScore type g).
Proof.
  unfold increaseScore.
  eapply Step_calls.
  - eapply Step_trans; [apply (Step_log (Scored type)); exact I|].
    destruct type; apply Step_addToScore.
  - reflexivity.
Qed.

Lemma Step_loseLive g : Step [] g (loseLive g).
Proof.
  constructor; try reflexivity.
  exists [LifeLost]. simpl. rewrite orb_true_r. auto.
Qed.

(** ** The player path *)

Lemma Step_spawnBulletIfNecessary inp g :
  Step [OspawnBulletIfNecessary] g (spawnBulletIfNecessary inp g).
Proof.
  unfold spawnBulletIfNecessary.
  eapply Step_calls.
  - eapply Step_trans; [apply (Step_log (Called OspawnBulletIfNecessary)); exact I|].
    destruct (getAndResetShot inp); [apply Step_set_bullets | apply Step_refl].
  - reflexivity.
Qed.

Lemma Step_moveBullets g : Step [OmoveBullets] g (moveBullets g).
Proof.
  unfold moveBullets.
  eapply Step_calls.
  - eapply Step_trans; [apply (Step_log (Called OmoveBullets)); exact I|].
    apply Step_set_bullets.
  - reflexivity.
Qed.

Lemma Step_collideBulletsMushroomsLoop todo :
  forall done g, Step [] g (collideBulletsMushroomsLoop done todo g).
Proof.
  induction todo as [|bullet rest IH]; intros done g; cbn [collideBulletsMushroomsLoop].
  - apply Step_refl.
  - destruct (MushroomMap_collide bullet (mushroomMap g)) as [collided map].
    destruct collided.
    + eapply (Step_trans [] []); [|apply IH].
      eapply (Step_trans [] []); [|apply Step_set_bullets].
      eapply (Step_trans [] []); [apply Step_set_mushroomMap|].
      match goal with |- context [if ?c then _ else _] => destruct c end;
        [apply Step_increaseScore | apply Step_refl].
    + eapply (Step_trans [] []); [apply Step_set_mushroomMap | apply IH].
Qed.

Lemma Step_collideBulletsMushrooms g :
  Step [OcollideBulletsMushrooms] g (collideBulletsMushrooms g).
Proof.
  unfold collideBulletsMushrooms.
  eapply Step_calls.
  - eapply Step_trans; [apply (Step_log (Called OcollideBulletsMushrooms)); exact I|].
    apply Step_collideBulletsMushroomsLoop.
  - reflexivity.
Qed.

Lemma Step_moveStarshipIfNecessary inp g :
  Step [OmoveStarshipIfNecessary] g (moveStarshipIfNecessary inp g).
Proof.
  unfold moveStarshipIfNecessary.
  eapply Step_calls.
  - eapply Step_trans; [apply (Step_log (Called OmoveStarshipIfNecessary)); exact I|].
    destruct (decide (getAndResetDirection inp = none));
      [apply Step_refl | apply Step_set_starship].
  - reflexivity.
Qed.

(** ** The centipede path *)

Lemma Step_moveCentipedes g : Step [OmoveCentipedes] g (moveCentipedes g).
Proof.
  unfold moveCentipedes.
  eapply Step_calls.
  - eapply Step_trans; [apply (Step_log (Called OmoveCentipedes)); exact I|].
    generalize (seq 0 (length (centipedes (log (Called OmoveCentipedes) g)))).
    generalize (log (Called OmoveCentipedes) g). clear g.
    intros g l. revert g.
    induction l as [|i l IH]; intros g; simpl.
    + apply Step_refl.
    + eapply (Step_trans [] []); [|apply IH].
      destruct (centipedes g !! i); [apply Step_set_centipedes | apply Step_refl].
  - reflexivity.
Qed.

(** ** Rendering and the breakout menu *)

Lemma Step_printGame g : Step [OprintGame] g (printGame g).
Proof. apply (Step_log (Called OprintGame)). exact I. Qed.

Lemma Step_loseGame g : Step [OloseGame] g (loseGame g).
Proof. apply (Step_log (Called OloseGame)). exact I. Qed.

Lemma Step_breakGameIfNecessary inp g : Step [] g (breakGameIfNecessary inp g).
Proof.
  unfold breakGameIfNecessary.
  destruct (getAndResetBreakoutMenu inp); simpl; [|apply Step_refl].
  destruct (runBreakoutMenu inp); [apply Step_refl|].
  induction (Z.to_nat (getLives (saveState g))) as [|n IH]; simpl.
  - apply Step_refl.
  - eapply (Step_trans [] []); [apply IH|].
    match goal with |- context [if alive ?x then _ else _] => destruct (alive x) end;
      [apply Step_loseLive | apply Step_refl].
Qed.

(** ** Bullets against centipedes *)

Lemma scanEvents_nil : scanEvents [].
Proof. intros e H. inversion H. Qed.

Lemma scanEvents_app evs1 evs2 : scanEvents evs1 -> scanEvents evs2 -> scanEvents (evs1 ++ evs2).
Proof. intros H1 H2 e [H|H]%elem_of_app; auto. Qed.

Lemma scanEvents_calls evs : scanEvents evs -> calls evs = [].
Proof.
  induction evs as [|e evs IH]; intros H; [reflexivity|].
  simpl. destruct (H e) as [[t ->]|[c ->]]; [left| |]; simpl;
    apply IH; intros e' He'; apply H; right; exact He'.
Qed.

Lemma scanEvents_lifeLostIn evs : scanEvents evs -> lifeLostIn evs = false.
Proof.
  induction evs as [|e evs IH]; intros H; [reflexivity|].
  simpl. destruct (H e) as [[t ->]|[c ->]]; [left| |]; simpl;
    apply IH; intros e' He'; apply H; right; exact He'.
Qed.

Lemma scanEvents_Visited evs c bs : scanEvents evs -> Visited c bs ∉ evs.
Proof. intros H Hin. destruct (H _ Hin) as [[t Ht]|[c' Hc]]; discriminate. Qed.

Lemma bulletLoop_spec todo :
  forall done i g,
    (i < length (centipedes g))%nat ->
    exists headHit g' evs c',
      bulletLoop i done todo g = Ok headHit g' /\
      settings g' = settings g /\
      gameClock_thread_ptr g' = gameClock_thread_ptr g /\
      hasDiedInRound g' = hasDiedInRound g /\
      trace g' = trace g ++ evs /\
      scanEvents evs /\
      centipedes g' = <[i := c']> (centipedes g) ++ appended evs /\
      (bullets g = done ++ todo ->
       (length (bullets g') + length (appended evs) <= length (bullets g))%nat).
Proof.
  induction todo as [|bullet rest IH]; intros done i g Hi.
  - destruct (lookup_lt_is_Some_2 _ _ Hi) as [c Hc].
    exists false, g, [], c. cbn [bulletLoop].
    repeat split; auto using scanEvents_nil.
    + symmetry. apply app_nil_r.
    + simpl. rewrite app_nil_r, list_insert_id; auto.
    + intros _. simpl. lia.
  - destruct (lookup_lt_is_Some_2 _ _ Hi) as [c Hc].
    cbn [bulletLoop]. rewrite Hc.
    destruct (CentipedeHead_collide bullet (mushroomMap g) c)
      as [[[hitIndicator splitOfTail_ptr] c1] map].
    set (g1 := set_mushroomMap map (set_centipedes (<[i:=c1]> (centipedes g)) g)).
    assert (Hlen1 : length (centipedes g1) = length (centipedes g))
      by (subst g1; state; apply length_insert).
    destruct hitIndicator.
    + (* no hit *)
      destruct (IH (done ++ [bullet]) i g1)
        as (h & g' & evs & c' & Hrun & Hs & Ht & Hf & Htr & Hev & Hc' & Hb); [lia|].
      exists h, g', evs, c'. repeat split; auto.
      * rewrite Hc'. subst g1. state. rewrite list_insert_insert_eq. reflexivity.
      * intros Hbs. apply Hb. subst g1. state.
        rewrite Hbs, <- app_assoc. reflexivity.
    + (* tail hit *)
      set (g2 := increaseScore centipedeHit (set_bullets (done ++ rest) g1)).
      destruct splitOfTail_ptr as [body|].
      * set (g3 := log (Appended (CentipedeHead_fromBody body))
                     (set_centipedes (centipedes g2 ++ [CentipedeHead_fromBody body]) g2)).
        destruct (IH done i g3)
          as (h & g' & evs & c' & Hrun & Hs & Ht & Hf & Htr & Hev & Hc' & Hb);
          [subst g3 g2 g1; state; rewrite length_app, length_insert; lia|].
        exists h, g', ([Scored centipedeHit; Appended (CentipedeHead_fromBody body)] ++ evs), c'.
        repeat split; auto.
        -- rewrite Htr. subst g3 g2 g1. state. rewrite <- !app_assoc. reflexivity.
        -- apply scanEvents_app; [|exact Hev].
           intros e He. apply elem_of_cons in He as [->|He]; [left; eauto|].
           apply list_elem_of_singleton in He as ->. right; eauto.
        -- rewrite Hc'. subst g3 g2 g1. state.
           rewrite insert_app_l by (rewrite length_insert; exact Hi).
           rewrite list_insert_insert_eq, <- app_assoc. reflexivity.
        -- intros Hbs.
           assert (Hb' := Hb eq_refl). clear Hb.
           subst g3 g2 g1. state. rewrite Hbs.
           rewrite !length_app in *. simpl. lia.
      * destruct (IH done i g2)
          as (h & g' & evs & c' & Hrun & Hs & Ht & Hf & Htr & Hev & Hc' & Hb);
          [subst g2 g1; state; rewrite length_insert; lia|].
        exists h, g', ([Scored centipedeHit] ++ evs), c'.
        repeat split; auto.
        -- rewrite Htr. subst g2 g1. state. rewrite <- !app_assoc. reflexivity.
        -- apply scanEvents_app; [|exact Hev].
           intros e He. apply list_elem_of_singleton in He as ->. left; eauto.
        -- rewrite Hc'. subst g2 g1. state.
           rewrite list_insert_insert_eq. reflexivity.
        -- intros Hbs.
           assert (Hb' := Hb eq_refl). clear Hb.
           subst g2 g1. state. rewrite Hbs.
           rewrite !length_app in *. simpl. lia.
    + (* head hit *)
      set (g2 := increaseScore centipedeHit (set_bullets (done ++ rest) g1)).
      destruct splitOfTail_ptr as [body|].
      * exists true, (log (Appended (CentipedeHead_fromBody body))
                        (set_centipedes (centipedes g2 ++ [CentipedeHead_fromBody body]) g2)),
               [Scored centipedeHit; Appended (CentipedeHead_fromBody body)], c1.
        repeat split; auto.
        -- subst g2 g1. state. rewrite <- !app_assoc. reflexivity.
        -- intros e He. apply elem_of_cons in He as [->|He]; [left; eauto|].
           apply list_elem_of_singleton in He as ->. right; eauto.
        -- intros Hbs. subst g2 g1. state. rewrite Hbs.
           rewrite !length_app. simpl. lia.
      * exists true, g2, [Scored centipedeHit], c1.
        repeat split; auto.
        -- intros e He. apply list_elem_of_singleton in He as ->. left; eauto.
        -- subst g2 g1. state. rewrite app_nil_r. reflexivity.
        -- intros Hbs. subst g2 g1. state. rewrite Hbs.
           rewrite !length_app. simpl. lia.
Qed.

Lemma scanEvents_passEvents evs : scanEvents evs -> passEvents evs.
Proof. intros H e He. destruct (H e He) as [?|?]; auto. Qed.

Lemma passEvents_app evs1 evs2 : passEvents evs1 -> passEvents evs2 -> passEvents (evs1 ++ evs2).
Proof. intros H1 H2 e [H|H]%elem_of_app; auto. Qed.

Lemma passEvents_calls evs : passEvents evs -> calls evs = [].
Proof.
  induction evs as [|e evs IH]; intros H; [reflexivity|].
  simpl. destruct (H e) as [[t ->]|[[c ->]|(c & bs & ->)]]; [left| | |]; simpl;
    apply IH; intros e' He'; apply H; right; exact He'.
Qed.

Lemma passEvents_lifeLostIn evs : passEvents evs -> lifeLostIn evs = false.
Proof.
  induction evs as [|e evs IH]; intros H; [reflexivity|].
  simpl. destruct (H e) as [[t ->]|[[c ->]|(c & bs & ->)]]; [left| | |]; simpl;
    apply IH; intros e' He'; apply H; right; exact He'.
Qed.

Lemma appendedAreVisited_app evs1 evs2 :
  (forall n, n ∈ appended evs1 -> exists bs, Visited n bs ∈ evs2) ->
  appendedAreVisited evs2 ->
  appendedAreVisited (evs1 ++ evs2).
Proof.
  induction evs1 as [|e evs1 IH]; intros H1 H2; [exact H2|].
  intros pre n post Heq. destruct pre as [|e' pre]; simpl in Heq.
  - injection Heq as -> <-.
    destruct (H1 n) as [bs Hbs]; [simpl; left|].
    exists bs. apply elem_of_app. right. exact Hbs.
  - injection Heq as <- Heq.
    apply (IH (fun n Hn => H1 n ltac:(simpl; destruct e; simpl; auto; right; exact Hn)) H2 pre n post Heq).
Qed.

Lemma appendedAreVisited_Visited c bs evs :
  appendedAreVisited evs -> appendedAreVisited (Visited c bs :: evs).
Proof.
  intros H pre n post Heq. destruct pre as [|e' pre]; simpl in Heq.
  - discriminate.
  - injection Heq as <- Heq. eapply H. exact Heq.
Qed.

Lemma centipedeLoop_spec fuel :
  forall i g,
    (i <= length (centipedes g))%nat ->
    (length (centipedes g) - i + length (bullets g) <= fuel)%nat ->
    exists g' evs,
      centipedeLoop fuel i g = Ok tt g' /\
      settings g' = settings g /\
      gameClock_thread_ptr g' = gameClock_thread_ptr g /\
      hasDiedInRound g' = hasDiedInRound g /\
      trace g' = trace g ++ evs /\
      passEvents evs /\
      (forall k n, (i <= k)%nat -> centipedes g !! k = Some n ->
                   exists bs, Visited n bs ∈ evs) /\
      appendedAreVisited evs.
Proof.
  induction fuel as [|fuel IH]; intros i g Hi Hfuel.
  - (* no turn left: the iterator is at the end *)
    assert (i = length (centipedes g)) as -> by lia.
    exists g, []. cbn [centipedeLoop].
    destruct (decide (length (centipedes g) < length (centipedes g))%nat) as [Habs|_]; [lia|].
    repeat split; auto.
    + symmetry; apply app_nil_r.
    + intros e He. inversion He.
    + intros k n Hk Hn. apply lookup_lt_Some in Hn. lia.
    + intros [|] ? ? ?; discriminate.
  - cbn [centipedeLoop].
    destruct (decide (i < length (centipedes g))%nat) as [Hlt|Hge].
    2:{ exists g, []. repeat split; auto.
        + symmetry; apply app_nil_r.
        + intros e He. inversion He.
        + intros k n Hk Hn. apply lookup_lt_Some in Hn. lia.
        + intros [|] ? ? ?; discriminate. }
    destruct (lookup_lt_is_Some_2 _ _ Hlt) as [c Hc]. rewrite Hc.
    set (gv := log (Visited c (bullets g)) g).
    destruct (bulletLoop_spec (bullets gv) [] i gv)
      as (h & g1 & evs1 & c' & Hrun & Hs1 & Ht1 & Hf1 & Htr1 & Hev1 & Hc1 & Hb1);
      [exact Hlt|].
    rewrite Hrun. specialize (Hb1 eq_refl).
    assert (Hcs : centipedes gv = centipedes g) by reflexivity.
    assert (Hbs : bullets gv = bullets g) by reflexivity.
    rewrite Hcs in Hc1. rewrite Hbs in Hb1.
    assert (Hlater : forall k n, (i < k)%nat -> centipedes g !! k = Some n ->
                                 centipedes g1 !! k = Some n).
    { intros k n Hk Hn. rewrite Hc1.
      rewrite lookup_app_l by (rewrite length_insert; eapply lookup_lt_Some; exact Hn).
      rewrite list_lookup_insert_ne by lia. exact Hn. }
    assert (Hnew : forall n, n ∈ appended evs1 ->
                             exists k, (length (centipedes g) <= k)%nat /\
                                       centipedes g1 !! k = Some n).
    { intros n [j Hj]%list_elem_of_lookup_1.
      exists (length (centipedes g) + j)%nat. split; [lia|].
      rewrite Hc1, lookup_app_r by (rewrite length_insert; lia).
      rewrite length_insert.
      replace (length (centipedes g) + j - length (centipedes g))%nat with j by lia.
      exact Hj. }
    assert (Hlen1 : length (centipedes g1) = (length (centipedes g) + length (appended evs1))%nat)
      by (rewrite Hc1, length_app, length_insert; reflexivity).
    destruct h.
    + (* head hit: the centipede at [i] is erased *)
      set (g2 := set_centipedes (delete i (centipedes g1)) g1).
      assert (Hcs2 : centipedes g2 = delete i (centipedes g1)) by reflexivity.
      assert (Hbs2 : bullets g2 = bullets g1) by reflexivity.
      assert (Hlen2 : S (length (centipedes g2)) = length (centipedes g1)).
      { rewrite Hcs2, length_delete by (apply lookup_lt_is_Some_2; lia). lia. }
      destruct (IH i g2)
        as (g' & evs2 & Hrun2 & Hs2 & Ht2 & Hf2 & Htr2 & Hev2 & Hvis2 & Hav2);
        [lia | rewrite Hbs2; lia |].
      exists g', (Visited c (bullets g) :: evs1 ++ evs2).
      repeat split.
      * exact Hrun2.
      * rewrite Hs2. exact Hs1.
      * rewrite Ht2. exact Ht1.
      * rewrite Hf2. exact Hf1.
      * rewrite Htr2. change (trace g2) with (trace g1). rewrite Htr1.
        subst gv. state. rewrite <- !app_assoc. reflexivity.
      * intros e [->|He]%elem_of_cons; [right; right; eauto|].
        revert e He. apply passEvents_app; [apply scanEvents_passEvents; exact Hev1 | exact Hev2].
      * intros k n Hk Hn. destruct (decide (k = i)) as [->|Hne].
        -- exists (bullets g). rewrite Hc in Hn. injection Hn as <-. left.
        -- destruct (Hvis2 (pred k) n) as [bs Hin]; [lia| |].
           ++ rewrite Hcs2, list_lookup_delete_ge by lia.
              replace (S (pred k)) with k by lia. apply Hlater; [lia | exact Hn].
           ++ exists bs. right. apply elem_of_app. right. exact Hin.
      * apply appendedAreVisited_Visited, appendedAreVisited_app; [|exact Hav2].
        intros n Hn. destruct (Hnew n Hn) as (k & Hk & Hlook).
        apply (Hvis2 (pred k) n); [lia|].
        rewrite Hcs2, list_lookup_delete_ge by lia.
        replace (S (pred k)) with k by lia. exact Hlook.
    + (* no head hit: on to the next centipede *)
      destruct (IH (S i) g1)
        as (g' & evs2 & Hrun2 & Hs2 & Ht2 & Hf2 & Htr2 & Hev2 & Hvis2 & Hav2);
        [lia | lia |].
      exists g', (Visited c (bullets g) :: evs1 ++ evs2).
      repeat split.
      * exact Hrun2.
      * rewrite Hs2. exact Hs1.
      * rewrite Ht2. exact Ht1.
      * rewrite Hf2. exact Hf1.
      * rewrite Htr2, Htr1.
        subst gv. state. rewrite <- !app_assoc. reflexivity.
      * intros e [->|He]%elem_of_cons; [right; right; eauto|].
        revert e He. apply passEvents_app; [apply scanEvents_passEvents; exact Hev1 | exact Hev2].
      * intros k n Hk Hn. destruct (decide (k = i)) as [->|Hne].
        -- exists (bullets g). rewrite Hc in Hn. injection Hn as <-. left.
        -- destruct (Hvis2 k n) as [bs Hin]; [lia | apply Hlater; [lia | exact Hn] |].
           exists bs. right. apply elem_of_app. right. exact Hin.
      * apply appendedAreVisited_Visited, appendedAreVisited_app; [|exact Hav2].
        intros n Hn. destruct (Hnew n Hn) as (k & Hk & Hlook).
        apply (Hvis2 k n); [lia | exact Hlook].
Qed.

(** A pass of the bullets over the centipedes always returns; every
    centipede of the collection, and every centipede appended on the way, is
    visited. *)
Lemma collideBulletsCentipedes_spec g :
  exists g' evs,
    collideBulletsCentipedes g = Ok tt g' /\
    settings g' = settings g /\
    gameClock_thread_ptr g' = gameClock_thread_ptr g /\
    hasDiedInRound g' = hasDiedInRound g /\
    trace g' = trace g ++ Called OcollideBulletsCentipedes :: evs /\
    passEvents evs /\
    (forall n, n ∈ centipedes g -> exists bs, Visited n bs ∈ evs) /\
    appendedAreVisited evs.
Proof.
  unfold collideBulletsCentipedes.
  set (g0 := log (Called OcollideBulletsCentipedes) g).
  destruct (centipedeLoop_spec (length (centipedes g0) + length (bullets g0)) 0 g0)
    as (g' & evs & Hrun & Hs & Ht & Hf & Htr & Hev & Hvis & Hav); [lia | lia |].
  exists g', evs. repeat split; auto.
  - rewrite Htr. subst g0. state. rewrite <- app_assoc. reflexivity.
  - intros n [k Hk]%list_elem_of_lookup_1. apply (Hvis k n); [lia | exact Hk].
Qed.

Lemma Step_collideBulletsCentipedes g :
  exists g', collideBulletsCentipedes g = Ok tt g' /\ Step [OcollideBulletsCentipedes] g g'.
Proof.
  destruct (collideBulletsCentipedes_spec g)
    as (g' & evs & Hrun & Hs & Ht & Hf & Htr & Hev & _ & _).
  exists g'. split; [exact Hrun|]. constructor; auto.
  exists (Called OcollideBulletsCentipedes :: evs). repeat split; auto.
  - simpl. rewrite (passEvents_calls _ Hev). reflexivity.
  - simpl. rewrite (passEvents_lifeLostIn _ Hev), orb_false_r. exact Hf.
Qed.

(** ** Centipedes against the starship *)

Lemma Step_playerLoop range :
  forall p g, Step [] g (final (playerLoop range p g)).
Proof.
  induction range as [|c range IH]; intros p g; cbn [playerLoop].
  - apply Step_refl.
  - destruct (negb (CentipedeHead_isAtPosition p c)); [apply IH|].
    eapply (Step_trans [] []); [apply Step_loseLive | apply IH].
Qed.

Lemma Step_collidePlayerCentipedes g :
  Step [OcollidePlayerCentipedes] g (final (collidePlayerCentipedes g)).
Proof.
  unfold collidePlayerCentipedes.
  eapply Step_calls.
  - eapply Step_trans; [apply (Step_log (Called OcollidePlayerCentipedes)); exact I|].
    apply Step_playerLoop.
  - reflexivity.
Qed.

(** The loop calls [loseLive] once for every centipede of the range that
    stands on the starship. *)
Lemma playerLoop_eq range :
  forall p g,
    playerLoop range p g =
      Ok tt (Nat.iter (length (List.filter (CentipedeHead_isAtPosition p) range)) loseLive g).
Proof.
  induction range as [|c range IH]; intros p g; cbn [playerLoop List.filter].
  - reflexivity.
  - destruct (CentipedeHead_isAtPosition p c); cbn [negb length].
    + rewrite IH, Nat.iter_succ_r. reflexivity.
    + apply IH.
Qed.

Lemma collidePlayerCentipedes_eq g :
  collidePlayerCentipedes g =
    Ok tt (Nat.iter
             (length (List.filter
                        (CentipedeHead_isAtPosition (Starship_getPosition (starship g)))
                        (centipedes g)))
             loseLive (log (Called OcollidePlayerCentipedes) g)).
Proof. unfold collidePlayerCentipedes. apply playerLoop_eq. Qed.

Lemma livesLost_replicate_LifeLost k :
  livesLost (replicate k (@LifeLost E)) = k.
Proof.
  unfold livesLost. induction k as [|k IH]; [reflexivity|].
  simpl. rewrite IH. reflexivity.
Qed.

(** [k] calls of [loseLive] in a row. *)
Lemma loseLive_iter k :
  forall g,
    let g' := Nat.iter k loseLive g in
    trace g' = trace g ++ replicate k LifeLost /\
    getLives (saveState g') = getLives (saveState g) - Z.of_nat k /\
    centipedes g' = (if k is O then centipedes g else []) /\
    hasDiedInRound g' = hasDiedInRound g || (0 <? k)%nat /\
    bullets g' = bullets g /\
    starship g' = starship g /\
    mushroomMap g' = mushroomMap g /\
    getScore (saveState g') = getScore (saveState g) /\
    settings g' = settings g.
Proof.
  induction k as [|k IH]; intros g; cbv zeta.
  - cbn [Nat.iter replicate]. rewrite app_nil_r, orb_false_r.
    repeat split. simpl. lia.
  - rewrite Nat.iter_succ_r.
    destruct (IH (loseLive g)) as (Htr & Hl & Hcs & Hf & Hbs & Hship & Hmap & Hsc & Hset).
    rewrite Htr, Hl, Hcs, Hf, Hbs, Hship, Hmap, Hsc, Hset.
    split; [state; rewrite <- app_assoc; reflexivity|].
    split; [state; lia|].
    split; [destruct k; reflexivity|].
    split; [state; rewrite orb_true_r; reflexivity|].
    repeat split.
Qed.

(** ** The gating of the paths *)

Lemma executePathForGametick_eq gameTick moduloSlowdown g :
  executePathForGametick gameTick moduloSlowdown g =
  match Int.div_error gameTick moduloSlowdown with
  | None => Ok (Z.rem gameTick moduloSlowdown =? 0) g
  | Some Int.ByZero => Stop DivisionByZero g
  | Some Int.Overflow => Stop DivisionOverflow g
  end.
Proof.
  unfold executePathForGametick, int_rem, bind.
  destruct (Int.div_error gameTick moduloSlowdown) as [[|]|]; reflexivity.
Qed.

Lemma Step_handlePlayerControlledEntities inp g :
  Step (playerCalls (gate (getGameTick (saveState g))
                          (getStarshipModuloGametickSlowdown (settings g))))
       g (final (handlePlayerControlledEntities inp g)).
Proof.
  unfold handlePlayerControlledEntities, gate, bind, get.
  rewrite executePathForGametick_eq.
  destruct (Int.div_error _ _) as [[|]|]; simpl; try apply Step_refl.
  destruct (Z.rem _ _ =? 0); simpl; [|apply Step_refl].
  unfold modify.
  eapply (Step_trans [_] [_; _; _]); [apply Step_spawnBulletIfNecessary|].
  eapply (Step_trans [_] [_; _]); [apply Step_moveBullets|].
  eapply (Step_trans [_] [_]); [apply Step_collideBulletsMushrooms|].
  apply Step_moveStarshipIfNecessary.
Qed.

Lemma Step_handleCentipedes g :
  Step (centipedeCalls (gate (getGameTick (saveState g))
                             (getCurrentCentipedeModuloGametickSlowdown (saveState g))))
       g (final (handleCentipedes g)).
Proof.
  unfold handleCentipedes, gate, bind, get.
  rewrite executePathForGametick_eq.
  destruct (Int.div_error _ _) as [[|]|]; simpl; try apply Step_refl.
  destruct (Z.rem _ _ =? 0); simpl; [|apply Step_refl].
  apply Step_moveCentipedes.
Qed.

Lemma Step_collisions g :
  Step [OcollideBulletsCentipedes; OcollidePlayerCentipedes] g
       (final ((collideBulletsCentipedes ;;; collidePlayerCentipedes) g)).
Proof.
  unfold bind.
  destruct (Step_collideBulletsCentipedes g) as (g' & -> & Hstep).
  eapply (Step_trans [_] [_]); [exact Hstep | apply Step_collidePlayerCentipedes].
Qed.

Lemma Step_handleGlobalCollisions g :
  Step (collisionCalls
          (gate (getGameTick (saveState g)) (getStarshipModuloGametickSlowdown (settings g)))
          (gate (getGameTick (saveState g))
                (getCurrentCentipedeModuloGametickSlowdown (saveState g))))
       g (final (handleGlobalCollisions g)).
Proof.
  unfold handleGlobalCollisions, gate. unfold bind at 1 2. unfold get.
  rewrite executePathForGametick_eq.
  destruct (Int.div_error _ (getStarshipModuloGametickSlowdown _)) as [[|]|];
    simpl; try apply Step_refl.
  destruct (Z.rem _ (getStarshipModuloGametickSlowdown _) =? 0); simpl.
  - unfold bind at 1. unfold ret at 1. apply Step_collisions.
  - unfold bind at 1 2. rewrite executePathForGametick_eq.
    destruct (Int.div_error _ _) as [[|]|]; simpl; try apply Step_refl.
    unfold ret at 1.
    destruct (Z.rem _ _ =? 0); simpl; [apply Step_collisions | apply Step_refl].
Qed.

(** ** One tick *)

Lemma gameTick_shape env g :
  exists cs, Step cs g (final (gameTick env g)) /\ tickShape cs.
Proof.
  unfold gameTick. unfold bind at 1, modify at 1. unfold bind at 1, get at 1.
  set (g1 := incrementGameTick g).
  set (inp := inputAt env (getGameTick (saveState g1))).
  pose proof (Step_incrementGameTick g) as H0. fold g1 in H0.
  pose proof (Step_handlePlayerControlledEntities inp g1) as H1.
  set (a := gate _ _) in H1.
  unfold bind at 1.
  destruct (handlePlayerControlledEntities inp g1) as [[] g2|e g2]; simpl in H1.
  2:{ exists (playerCalls a). split.
      - simpl. apply (Step_trans [] _ _ _ _ H0 H1).
      - exists a, None, None, None, false. simpl. rewrite app_nil_r. reflexivity. }
  pose proof (Step_handleCentipedes g2) as H2.
  set (b := gate _ _) in H2.
  unfold bind at 1.
  destruct (handleCentipedes g2) as [[] g3|e g3]; simpl in H2.
  2:{ exists (playerCalls a ++ centipedeCalls b). split.
      - simpl. apply (Step_trans [] _ _ _ _ H0). apply (Step_trans _ _ _ _ _ H1 H2).
      - exists a, b, None, None, false. simpl. rewrite app_nil_r. reflexivity. }
  pose proof (Step_handleGlobalCollisions g3) as H3.
  set (c := gate _ (getStarshipModuloGametickSlowdown _)) in H3.
  set (d := gate _ _) in H3.
  unfold bind at 1.
  destruct (handleGlobalCollisions g3) as [[] g4|e g4]; simpl in H3.
  2:{ exists (playerCalls a ++ centipedeCalls b ++ collisionCalls c d). split.
      - simpl. apply (Step_trans [] _ _ _ _ H0). apply (Step_trans _ _ _ _ _ H1).
        apply (Step_trans _ _ _ _ _ H2 H3).
      - exists a, b, c, d, false. simpl. rewrite app_nil_r. reflexivity. }
  unfold bind, modify. simpl.
  exists (playerCalls a ++ centipedeCalls b ++ collisionCalls c d ++ [OprintGame]). split.
  - apply (Step_trans [] _ _ _ _ H0). apply (Step_trans _ _ _ _ _ H1).
    apply (Step_trans _ _ _ _ _ H2). apply (Step_trans _ _ _ _ _ H3).
    eapply Step_calls.
    + eapply Step_trans; [apply Step_printGame | apply Step_breakGameIfNecessary].
    + reflexivity.
  - exists a, b, c, d, true. reflexivity.
Qed.

(** ** The order of the calls *)

Lemma precedesb_sound P Q ops : precedesb P Q ops = true -> precedes P Q ops.
Proof.
  induction ops as [|op ops IH]; intros H i j a b Hi Hj Pa Qb.
  - destruct i; discriminate.
  - cbn [precedesb] in H. apply andb_true_iff in H as [Hop Hrest].
    destruct i as [|i], j as [|j]; simpl in Hi, Hj.
    + injection Hi as ->. injection Hj as ->. rewrite Qb, Pa in Hop. discriminate.
    + lia.
    + injection Hj as ->. rewrite Qb in Hop.
      apply andb_true_iff in Hop as [_ Hall].
      rewrite forallb_forall in Hall.
      assert (Hin : In a ops) by (apply list_elem_of_In, list_elem_of_lookup; eauto).
      apply Hall in Hin. rewrite Pa in Hin. discriminate.
    + pose proof (IH Hrest i j a b Hi Hj Pa Qb). lia.
Qed.

Lemma tickShape_order ops :
  tickShape ops ->
  precedes isMovement isGlobalCollision ops /\
  precedes isCollision isRendering ops /\
  precedes isMovement isRendering ops /\
  precedes (fun op => bool_decide (op = OmoveBullets))
           (fun op => bool_decide (op = OcollideBulletsMushrooms)) ops /\
  precedes (fun op => bool_decide (op = OcollideBulletsMushrooms))
           (fun op => bool_decide (op = OmoveStarshipIfNecessary)
                      || bool_decide (op = OmoveCentipedes)) ops.
Proof.
  intros (a & b & c & d & printed & ->).
  destruct a as [[|]|], b as [[|]|], c as [[|]|], d as [[|]|], printed;
    repeat split; apply precedesb_sound; reflexivity.
Qed.

(** ** The claims about the scheduler and the clock *)


(** C7.  [startNextRound] makes the round [r] (the round number it has
    just incremented) and sets the centipede-path slowdown to
    [initialSlowdown - floor(r / speedupInterval) * speedupAmount]; with
    [initialSlowdown = 5], [speedupInterval = 3], [speedupAmount = 1] and
    round 6 the slowdown is 3.  The round is not negative, the interval is
    positive and the numbers stay within [int]. *)
Theorem slowdown_recomputed_at_round_start env g :
  let settings_ptr := settings g in
  let r := getCurrentRound (saveState g) + 1 in
  let initialSlowdown := getInitialCentipedeModuloGametickSlowdown settings_ptr in
  let speedupInterval := getCentipedeSpeedIncrementRoundModuloSlowdown settings_ptr in
  let speedupAmount := getCentipedeSpeedIncrementAmount settings_ptr in
  0 <= r -> 0 < speedupInterval ->
  getCentipedeSizeIncrementRoundModuloSlowdown settings_ptr <> 0 ->
  Int.in_range (r / speedupInterval * speedupAmount) ->
  Int.in_range (initialSlowdown - r / speedupInterval * speedupAmount) ->
  calculateCentipedeSlowdown settings_ptr r g =
    Ok (initialSlowdown - r / speedupInterval * speedupAmount) g /\
  (exists g',
     startNextRound env g = Ok tt g' /\
     getCurrentRound (saveState g') = r /\
     getCurrentCentipedeModuloGametickSlowdown (saveState g') =
       initialSlowdown - r / speedupInterval * speedupAmount) /\
  (forall s,
     getInitialCentipedeModuloGametickSlowdown s = 5 ->
     getCentipedeSpeedIncrementRoundModuloSlowdown s = 3 ->
     getCentipedeSpeedIncrementAmount s = 1 ->
     calculateCentipedeSlowdown s 6 g = Ok 3 g).
Proof.
  intros settings_ptr r initialSlowdown speedupInterval speedupAmount
         Hr Hint Hsize Hmul Hsub.
  assert (Hcalc : forall g0 : GameLogic E,
             calculateCentipedeSlowdown settings_ptr r g0 =
             Ok (initialSlowdown - r / speedupInterval * speedupAmount) g0).
  { intros g0. unfold calculateCentipedeSlowdown, int_div, bind.
    fold speedupInterval speedupAmount initialSlowdown.
    rewrite Int_div_error_None by (unfold Int.min; lia).
    unfold ret, Int.sub, Int.mul.
    rewrite Z.quot_div_nonneg by lia.
    rewrite (Int_wrap_in_range _ Hmul), (Int_wrap_in_range _ Hsub). reflexivity. }
  split; [apply Hcalc | split].
  - unfold startNextRound.
    unfold bind at 1, modify at 1. unfold bind at 1, modify at 1.
    unfold bind at 1, get at 1.
    unfold bind at 1.
    change (settings (incrementCurrentRound (log (Called OstartNextRound) g)))
      with settings_ptr.
    change (getCurrentRound (saveState (incrementCurrentRound (log (Called OstartNextRound) g))))
      with r.
    rewrite Hcalc.
    unfold bind at 1, modify at 1. unfold bind at 1.
    unfold calculateCentipedeSize, int_div, bind at 1.
    rewrite Int_div_error_None by (auto; unfold Int.min; lia).
    unfold ret at 1. unfold ret, modify.
    eexists. split; [reflexivity|]. split; reflexivity.
  - intros s H5 H3 H1. unfold calculateCentipedeSlowdown, int_div, bind.
    rewrite H5, H3, H1. reflexivity.
Qed.

(** C8.  [startGameClock] on a [GameLogic] whose clock thread exists throws
    the logic error and leaves the object as it was, and so does [gameLoop];
    on a [GameLogic] without a clock thread it returns the signal and
    stores the handle of the new clock thread, changing nothing else. *)
Theorem startGameClock_once gameTickLength g :
  match gameClock_thread_ptr g with
  | Some _ =>
      startGameClock gameTickLength g = Stop (LogicError "Game Clock already running.") g /\
      (forall rounds ticks env,
          gameLoop rounds ticks env g = Stop (LogicError "Game Clock already running.") g)
  | None =>
      exists g',
        startGameClock gameTickLength g = Ok mkSignal g' /\
        gameClock_thread_ptr g' = Some {| clockTickLength := gameTickLength |} /\
        saveState g' = saveState g /\
        hasDiedInRound g' = hasDiedInRound g /\
        trace g' = trace g
  end.
Proof.
  destruct (gameClock_thread_ptr g) as [running|] eqn:Hptr.
  - split.
    + unfold startGameClock. rewrite Hptr. reflexivity.
    + intros rounds ticks env. unfold gameLoop, bind, get, startGameClock.
      rewrite Hptr. reflexivity.
  - unfold startGameClock. rewrite Hptr.
    eexists. split; [reflexivity|]. repeat split.
Qed.

(** ** The claims about the pass of the bullets over the centipedes *)

Lemma delete_insert_app {A} (l k : list A) i x :
  (i < length l)%nat -> delete i (<[i:=x]> l ++ k) = delete i l ++ k.
Proof.
  revert i. induction l as [|a l IH]; intros i Hi; simpl in Hi; [lia|].
  destruct i as [|i]; simpl; [reflexivity|].
  f_equal. apply IH. lia.
Qed.

(** C9.  A pass of [collideBulletsCentipedes] returns, and every centipede
    that a split appends to the collection during the pass is visited by the
    outer loop later in that pass; the visit records the bullets that are
    left at that moment.  A visit of the centipede at [centipede_ptr] is one
    turn of the outer loop: the scan of exactly those bullets against that
    centipede, after which the loop goes on from the same position (head
    hit, centipede erased) or from the next. *)
Theorem appended_centipedes_are_scanned g :
  (exists g' evs,
      collideBulletsCentipedes g = Ok tt g' /\
      trace g' = trace g ++ Called OcollideBulletsCentipedes :: evs /\
      (forall n, n ∈ centipedes g -> exists bs, Visited n bs ∈ evs) /\
      (forall pre n post,
          evs = pre ++ Appended n :: post -> exists bs, Visited n bs ∈ post)) /\
  (forall fuel i c,
      centipedes g !! i = Some c ->
      exists headHit g1,
        bulletLoop i [] (bullets g) (log (Visited c (bullets g)) g) = Ok headHit g1 /\
        centipedeLoop (S fuel) i g =
          if headHit then centipedeLoop fuel i (set_centipedes (delete i (centipedes g1)) g1)
          else centipedeLoop fuel (S i) g1).
Proof.
  split.
  - destruct (collideBulletsCentipedes_spec g)
      as (g' & evs & Hrun & _ & _ & _ & Htr & _ & Hvis & Hav).
    exists g', evs. auto.
  - intros fuel i c Hc.
    assert (Hi : (i < length (centipedes g))%nat) by (eapply lookup_lt_Some; exact Hc).
    destruct (bulletLoop_spec (bullets g) [] i (log (Visited c (bullets g)) g))
      as (h & g1 & evs1 & c' & Hrun & _); [exact Hi|].
    exists h, g1. split; [exact Hrun|].
    cbn [centipedeLoop].
    destruct (decide (i < length (centipedes g))%nat) as [_|Hn]; [|contradiction].
    rewrite Hc.
    change (bullets (log (Visited c (bullets g)) g)) with (bullets g).
    rewrite Hrun. destruct h; reflexivity.
Qed.

(** C2.  When the scan of the bullets against the centipede at [i] comes
    to a bullet [b] that hits the head, the scan ends at once with
    [headHit]: [b] is taken out of the bullets, the bullets after it stay
    untested in the vector, and one centipede-hit event is scored.  A turn
    of the outer loop whose scan ends with [headHit] erases the centipede at
    [i], whatever is left of it; the other centipedes and the centipedes
    that the scan appended before the head was hit stay in the collection. *)
Theorem head_hit_removes_centipede g i c done b rest hitIndicator splitOfTail_ptr c1 map :
  centipedes g !! i = Some c ->
  CentipedeHead_collide b (mushroomMap g) c = (hitIndicator, splitOfTail_ptr, c1, map) ->
  hitIndicator <> noHit -> hitIndicator <> tailHit ->
  (exists g1,
      bulletLoop i done (b :: rest) g = Ok true g1 /\
      bullets g1 = done ++ rest /\
      scored (eventsSince g g1) = [centipedeHit] /\
      getScore (saveState g1) = getScore (saveState g) + getPointsForCentipedeHit (settings g) /\
      centipedes g1 =
        <[i := c1]> (centipedes g)
        ++ match splitOfTail_ptr with
           | Some body => [CentipedeHead_fromBody body]
           | None => []
           end) /\
  (forall fuel g0 c0 g1,
      centipedes g0 !! i = Some c0 ->
      bulletLoop i [] (bullets g0) (log (Visited c0 (bullets g0)) g0) = Ok true g1 ->
      centipedeLoop (S fuel) i g0 =
        centipedeLoop fuel i (set_centipedes (delete i (centipedes g1)) g1) /\
      delete i (centipedes g1) = delete i (centipedes g0) ++ appended (eventsSince g0 g1)).
Proof.
  intros Hc Hcollide HnoHit HtailHit. split.
  - cbn [bulletLoop]. rewrite Hc, Hcollide.
    destruct hitIndicator; try contradiction.
    eexists. split; [reflexivity|].
    destruct splitOfTail_ptr as [body|].
    + repeat split.
      unfold eventsSince. state. rewrite <- app_assoc, drop_app_length. reflexivity.
    + repeat split.
      * unfold eventsSince. state. rewrite drop_app_length. reflexivity.
      * state. rewrite app_nil_r. reflexivity.
  - intros fuel g0 c0 g1 Hc0 Hscan.
    assert (Hi : (i < length (centipedes g0))%nat) by (eapply lookup_lt_Some; exact Hc0).
    split.
    + cbn [centipedeLoop].
      destruct (decide (i < length (centipedes g0))%nat) as [_|Hn]; [|contradiction].
      rewrite Hc0.
      change (bullets (log (Visited c0 (bullets g0)) g0)) with (bullets g0).
      rewrite Hscan. reflexivity.
    + destruct (bulletLoop_spec (bullets g0) [] i (log (Visited c0 (bullets g0)) g0))
        as (h & g1' & evs1 & c' & Hrun & _ & _ & _ & Htr & _ & Hcs & _); [exact Hi|].
      rewrite Hscan in Hrun. injection Hrun as <- <-.
      assert (Hev : eventsSince g0 g1 = Visited c0 (bullets g0) :: evs1).
      { apply eventsSince_app. rewrite Htr. state. rewrite <- app_assoc. reflexivity. }
      rewrite Hev, Hcs. simpl.
      apply delete_insert_app. exact Hi.
Qed.

(** ** The claims about a tick and about the rounds *)

(** C5, as the code has it.  In every tick the calls come in the shape
    player path, centipede path, collision path, rendering.  Every movement
    (bullets, starship, centipedes) is complete before the collisions of
    [handleGlobalCollisions] (bullets against centipedes, centipedes against
    the starship) are evaluated, and every collision evaluation and every
    movement is complete before the rendering.  The collision of the
    bullets with the mushrooms belongs to the player path: it comes after
    the movement of the bullets and before the movement of the starship and
    of the centipedes. *)
Theorem tick_order env g :
  let ops := calls (eventsSince g (final (gameTick env g))) in
  tickShape ops /\
  precedes isMovement isGlobalCollision ops /\
  precedes isCollision isRendering ops /\
  precedes isMovement isRendering ops /\
  precedes (fun op => bool_decide (op = OmoveBullets))
           (fun op => bool_decide (op = OcollideBulletsMushrooms)) ops /\
  precedes (fun op => bool_decide (op = OcollideBulletsMushrooms))
           (fun op => bool_decide (op = OmoveStarshipIfNecessary)
                      || bool_decide (op = OmoveCentipedes)) ops.
Proof.
  destruct (gameTick_shape env g) as (cs & Hstep & Hshape).
  destruct (Step_events _ _ _ Hstep) as (_ & -> & _).
  cbv zeta. split; [exact Hshape | apply tickShape_order; exact Hshape].
Qed.

Lemma Step_startNextRound env g :
  Step [OstartNextRound] g (final (startNextRound env g)).
Proof.
  unfold startNextRound.
  unfold bind at 1, modify at 1. unfold bind at 1, modify at 1.
  unfold bind at 1, get at 1.
  set (g1 := incrementCurrentRound (log (Called OstartNextRound) g)).
  assert (H1 : Step [OstartNextRound] g g1).
  { eapply Step_calls.
    - eapply Step_trans; [apply (Step_log (Called OstartNextRound)); exact I|].
      apply Step_incrementCurrentRound.
    - reflexivity. }
  unfold bind at 1. unfold calculateCentipedeSlowdown, int_div. unfold bind at 1.
  destruct (Int.div_error _ _) as [[|]|]; simpl; try exact H1.
  unfold bind at 1, modify at 1. unfold bind at 1.
  unfold calculateCentipedeSize, int_div. unfold bind at 1.
  destruct (Int.div_error _ _) as [[|]|]; simpl.
  - eapply (Step_trans [_] []); [exact H1 | apply Step_setSlowdown].
  - eapply (Step_trans [_] []); [exact H1 | apply Step_setSlowdown].
  - eapply (Step_trans [_] []); [exact H1|].
    eapply (Step_trans [] []); [apply Step_setSlowdown | apply Step_set_centipedes].
Qed.

Lemma Step_playRound env fuel :
  forall g, exists cs, Step cs g (final (playRound fuel env g)).
Proof.
  induction fuel as [|fuel IH]; intros g; cbn [playRound].
  - exists []. destruct (alive g && continueRound (centipedes g)); apply Step_refl.
  - destruct (alive g && continueRound (centipedes g)); [|exists []; apply Step_refl].
    unfold bind.
    destruct (gameTick_shape env g) as (cs & Hstep & _).
    destruct (gameTick env g) as [[] g1|e g1]; simpl in Hstep.
    + destruct (IH g1) as (cs' & Hstep').
      exists (cs ++ cs'). eapply Step_trans; [exact Hstep | exact Hstep'].
    + exists cs. exact Hstep.
Qed.

(** C10.  The constructor leaves [hasDiedInRound] as it finds it.  In a game
    started with [startNew], as long as no life has been lost in the first
    round the member still holds that indeterminate value when the round
    ends, and that value decides between the round-end points and the
    delay; [loseLive] is what sets it. *)
Theorem first_round_end_reads_indeterminate_flag
    indeterminate env settings_ptr rounds ticks g1 :
  let this := GameLogic_new indeterminate in
  let g0 :=
    {| saveState := newState settings_ptr;
       gameClock_thread_ptr := Some {| clockTickLength := getGameTickLength settings_ptr |};
       hasDiedInRound := members_hasDiedInRound this;
       trace := [] |} in
  0 < getInitialPlayerHealth settings_ptr ->
  (startNextRound env ;;; playRound ticks env) g0 = Ok tt g1 ->
  LifeLost ∉ trace g1 ->
  members_hasDiedInRound this = indeterminate /\
  hasDiedInRound g1 = indeterminate /\
  endRound g1 =
    (if indeterminate then log (Slept (getLiveLostBreakTime settings_ptr)) g1
     else increaseScore roundEnd g1) /\
  startNew (S rounds) ticks env settings_ptr this =
    (playRounds rounds ticks env ;;;
     g <- get ;;
     (if getLives (saveState g) <=? 0 then modify loseGame else ret tt) ;;;
     modify waitForGameClock) (endRound g1) /\
  (forall g, hasDiedInRound (loseLive g) = true).
Proof.
  intros this g0 Hhealth Hround Hlife.
  assert (Hfacts : hasDiedInRound g1 = indeterminate /\ settings g1 = settings_ptr).
  { unfold bind in Hround.
    pose proof (Step_startNextRound env g0) as H1.
    destruct (startNextRound env g0) as [[] ga|e ga]; [|discriminate].
    destruct (Step_playRound env ticks ga) as (cs & H2).
    rewrite Hround in H2. simpl in H1, H2.
    pose proof (Step_trans _ _ _ _ _ H1 H2) as [Hs _ (evs & Htr & _ & Hf)].
    simpl in Htr. split; [|exact Hs].
    rewrite Hf. rewrite Htr in Hlife.
    apply lifeLostIn_false in Hlife. rewrite Hlife. apply orb_false_r. }
  destruct Hfacts as [Hflag Hset].
  split; [reflexivity|]. split; [exact Hflag|]. split; [|split].
  - unfold endRound. rewrite Hflag, Hset. destruct indeterminate; reflexivity.
  - unfold startNew, continueGame, gameLoop.
    unfold bind at 1, get at 1. unfold bind at 1. unfold startGameClock at 1.
    cbn [gameClock_thread_ptr members_gameClock_thread_ptr this GameLogic_new].
    unfold bind at 1. cbn [playRounds].
    replace (alive _) with true
      by (symmetry; unfold alive; simpl; apply Z.ltb_lt; exact Hhealth).
    change (set_gameClock_thread_ptr _ _) with g0.
    unfold bind in Hround. unfold bind at 1 2 3. unfold modify at 1.
    destruct (startNextRound env g0) as [[] ga|e ga]; [|discriminate].
    rewrite Hround. reflexivity.
  - reflexivity.
Qed.

End Facts.

(** * The game on the objects of the design document *)

(** * Runs *)

Import SpecModel Scenario.

Lemma head_hit_removes_centipede_witness :
  centipedes headShot !! 0%nat = Some five /\
  chain_collide (cell 0 4) (mushroomMap headShot) five =
    (directHit, None, five, mushroomMap headShot) /\
  directHit <> noHit /\ directHit <> tailHit /\
  (exists g1,
      bulletLoop (E := field) 0 [] [cell 0 4; cell 0 2] headShot = Ok true g1 /\
      bullets g1 = [cell 0 2] /\
      scored (eventsSince headShot g1) = [centipedeHit]) /\
  (exists g2,
      centipedeLoop (E := field) 1 0 headShot = Ok tt g2 /\
      centipedes g2 = [] /\
      bullets g2 = [cell 0 2]).
Proof.
  split; [reflexivity|]. split; [reflexivity|].
  split; [discriminate|]. split; [discriminate|].
  destruct (head_hit_removes_centipede headShot 0 five [] (cell 0 4) [cell 0 2]
              directHit None five (mushroomMap headShot) eq_refl eq_refl
              ltac:(discriminate) ltac:(discriminate))
    as ((g1 & Hrun & Hbs & Hsc & _ & Hcs) & Hturn).
  split.
  - exists g1. split; [exact Hrun|]. split; [exact Hbs | exact Hsc].
  - destruct (Hturn O headShot five
                (final (bulletLoop (E := field) 0 [] (bullets headShot)
                          (log (@Visited field five (bullets headShot)) headShot)))
                eq_refl eq_refl)
      as [Hloop Hdel].
    eexists. split; [exact Hloop|]. split; reflexivity.
Defined.

(** C3.  [collidePlayerCentipedes] returns, and it has called [loseLive]
    once for every centipede of the vector that stands on the cell of the
    starship: as many life-loss events have fired, and as many lives are
    gone, as there are such centipedes.  With two centipedes on the starship
    two life-loss events fire in the one call. *)
Theorem two_centipedes_on_starship :
  (forall (E : Entities) (g : GameLogic E),
      let matching :=
        List.filter (CentipedeHead_isAtPosition (Starship_getPosition (starship g)))
                    (centipedes g) in
      exists g',
        collidePlayerCentipedes g = Ok tt g' /\
        eventsSince g g' =
          Called OcollidePlayerCentipedes :: replicate (length matching) LifeLost /\
        livesLost (eventsSince g g') = length matching /\
        getLives (saveState g') = getLives (saveState g) - Z.of_nat (length matching)) /\
  centipedes collision = onStarship /\
  Forall (fun c => chain_isAtPosition (starship collision) c = true) onStarship /\
  exists g',
    collidePlayerCentipedes collision = Ok tt g' /\
    eventsSince collision g' =
      [@Called field OcollidePlayerCentipedes; @LifeLost field; @LifeLost field] /\
    livesLost (eventsSince collision g') = 2%nat /\
    getLives (saveState g') = getLives (saveState collision) - 2 /\
    centipedes g' = [].
Proof.
  split; [|split; [reflexivity | split]].
  - intros E g matching. rewrite collidePlayerCentipedes_eq. fold matching.
    destruct (loseLive_iter (length matching) (log (Called OcollidePlayerCentipedes) g))
      as (Htr & Hl & _).
    eexists. split; [reflexivity|].
    assert (Hev : eventsSince g (Nat.iter (length matching) loseLive
                                   (log (Called OcollidePlayerCentipedes) g)) =
                  Called OcollidePlayerCentipedes :: replicate (length matching) LifeLost).
    { apply eventsSince_app. rewrite Htr. state. rewrite <- app_assoc. reflexivity. }
    split; [exact Hev|]. split; [|exact Hl].
    rewrite Hev. apply (livesLost_replicate_LifeLost (E := E)).
  - repeat constructor.
  - eexists. split; [vm_compute; reflexivity|]. repeat split.
Qed.

(** C4, where the code departs from it.  [startNextRound] never writes
    [hasDiedInRound].  In the game below a life is lost in round 1; in
    round 2 the player shoots the centipede and no life is lost, and the
    round still ends with the delay instead of the round-end points. *)
Theorem died_flag_is_not_reset_at_round_start :
  (forall (E : Entities) env (g : GameLogic E),
      hasDiedInRound (final (startNextRound env g)) = hasDiedInRound g) /\
  lifeCycle (trace (final (@startNew small 2 10 (shootAt 3) quick (GameLogic_new false)))) =
    [ Called OstartNextRound; LifeLost; Slept 1000;
      Called OstartNextRound; Scored centipedeHit; Slept 1000 ].
Proof.
  split.
  - intros E env g. unfold startNextRound.
    unfold bind at 1, modify at 1. unfold bind at 1, modify at 1.
    unfold bind at 1, get at 1.
    unfold bind at 1. unfold calculateCentipedeSlowdown, int_div. unfold bind at 1.
    destruct (Int.div_error _ _) as [[|]|]; simpl; try reflexivity.
    unfold bind at 1, modify at 1. unfold bind at 1.
    unfold calculateCentipedeSize, int_div. unfold bind at 1.
    destruct (Int.div_error _ _) as [[|]|]; reflexivity.
  - vm_compute. reflexivity.
Qed.

(** C5 as stated fails: in a tick that runs both paths the collision of
    the bullets with the mushrooms is evaluated before the starship and the
    centipedes move. *)
Lemma mushroom_collision_before_movement :
  calls (eventsSince bothDue (final (gameTick (shootAt 0) bothDue))) =
    [ OspawnBulletIfNecessary; OmoveBullets; OcollideBulletsMushrooms;
      OmoveStarshipIfNecessary; OmoveCentipedes; OcollideBulletsCentipedes;
      OcollidePlayerCentipedes; OprintGame ] /\
  ~ movementThenCollisionThenRendering
      (calls (eventsSince bothDue (final (gameTick (shootAt 0) bothDue)))).
Proof.
  assert (Hcalls : calls (eventsSince bothDue (final (gameTick (shootAt 0) bothDue))) =
    [ OspawnBulletIfNecessary; OmoveBullets; OcollideBulletsMushrooms;
      OmoveStarshipIfNecessary; OmoveCentipedes; OcollideBulletsCentipedes;
      OcollidePlayerCentipedes; OprintGame ]) by (vm_compute; reflexivity).
  split; [exact Hcalls|].
  rewrite Hcalls. intros [Hmove _].
  pose proof (Hmove 3%nat 2%nat OmoveStarshipIfNecessary OcollideBulletsMushrooms
                eq_refl eq_refl eq_refl eq_refl).
  lia.
Qed.


Lemma slowdown_recomputed_at_round_start_witness :
  0 <= getCurrentRound (saveState round5) + 1 /\
  0 < getCentipedeSpeedIncrementRoundModuloSlowdown paced /\
  getCentipedeSizeIncrementRoundModuloSlowdown paced <> 0 /\
  Int.in_range (6 / 3 * 1) /\
  Int.in_range (5 - 6 / 3 * 1) /\
  exists g',
    startNextRound (shootAt 0) round5 = Ok tt g' /\
    getCurrentRound (saveState g') = 6 /\
    getCurrentCentipedeModuloGametickSlowdown (saveState g') = 3.
Proof.
  assert (Hr : 0 <= getCurrentRound (saveState round5) + 1) by discriminate.
  assert (Hi : 0 < getCentipedeSpeedIncrementRoundModuloSlowdown paced) by reflexivity.
  assert (Hs : getCentipedeSizeIncrementRoundModuloSlowdown paced <> 0) by discriminate.
  assert (Hm : Int.in_range (6 / 3 * 1)) by (split; discriminate).
  assert (Hd : Int.in_range (5 - 6 / 3 * 1)) by (split; discriminate).
  repeat (split; [assumption|]).
  destruct (slowdown_recomputed_at_round_start (shootAt 0) round5 Hr Hi Hs Hm Hd)
    as (_ & (g' & Hrun & Hround & Hslow) & _).
  exists g'. split; [exact Hrun|]. split; [exact Hround | exact Hslow].
Defined.

Lemma first_round_end_reads_indeterminate_flag_witness :
  0 < getInitialPlayerHealth quick /\
  (startNextRound (shootAt 1) ;;; playRound 10 (shootAt 1)) (started true) =
    Ok tt (firstRound true) /\
  (startNextRound (shootAt 1) ;;; playRound 10 (shootAt 1)) (started false) =
    Ok tt (firstRound false) /\
  (LifeLost ∉ trace (firstRound true)) /\
  (LifeLost ∉ trace (firstRound false)) /\
  endRound (firstRound true) = log (Slept 1000) (firstRound true) /\
  endRound (firstRound false) = increaseScore roundEnd (firstRound false).
Proof.
  assert (Hh : 0 < getInitialPlayerHealth quick) by reflexivity.
  assert (Ht : (startNextRound (shootAt 1) ;;; playRound 10 (shootAt 1)) (started true) =
               Ok tt (firstRound true)) by (vm_compute; reflexivity).
  assert (Hf : (startNextRound (shootAt 1) ;;; playRound 10 (shootAt 1)) (started false) =
               Ok tt (firstRound false)) by (vm_compute; reflexivity).
  assert (Hlt : LifeLost ∉ trace (firstRound true))
    by (apply lifeLostIn_false; vm_compute; reflexivity).
  assert (Hlf : LifeLost ∉ trace (firstRound false))
    by (apply lifeLostIn_false; vm_compute; reflexivity).
  repeat (split; [assumption|]).
  split.
  - apply (first_round_end_reads_indeterminate_flag true (shootAt 1) quick 0 10
             (firstRound true) Hh Ht Hlt).
  - apply (first_round_end_reads_indeterminate_flag false (shootAt 1) quick 0 10
             (firstRound false) Hh Hf Hlf).
Defined.

(** * Further facts about the game logic *)

Section Books.

Context {E : Entities}.

Implicit Types g : GameLogic E.
Implicit Types evs : list (Event E).

Lemma pointsOf_app s ts1 ts2 : pointsOf s (ts1 ++ ts2) = pointsOf s ts1 + pointsOf s ts2.
Proof.
  induction ts1 as [|t ts1 IH]; simpl; [reflexivity|]. rewrite IH. lia.
Qed.

Lemma pointsOf_replicate s n t : pointsOf s (replicate n t) = Z.of_nat n * pointsFor s t.
Proof.
  induction n as [|n IH]; [reflexivity|].
  cbn [replicate pointsOf foldr]. fold (pointsOf s (replicate n t)). rewrite IH. lia.
Qed.

Lemma livesLost_app evs1 evs2 : livesLost (evs1 ++ evs2) = (livesLost evs1 + livesLost evs2)%nat.
Proof. unfold livesLost. rewrite List.filter_app, length_app. reflexivity. Qed.

Lemma Account_refl g : Account g g.
Proof.
  constructor; [reflexivity|]. exists [].
  rewrite app_nil_r. split; [reflexivity|].
  split; unfold pointsOf, livesLost; simpl; lia.
Qed.

Lemma Account_trans g g1 g2 : Account g g1 -> Account g1 g2 -> Account g g2.
Proof.
  intros [Hs1 (e1 & Ht1 & Hp1 & Hl1)] [Hs2 (e2 & Ht2 & Hp2 & Hl2)].
  constructor; [congruence|].
  exists (e1 ++ e2). rewrite Ht2, Ht1, app_assoc. split; [reflexivity|].
  rewrite scored_app, pointsOf_app, livesLost_app, Hp2, Hl2, Hp1, Hl1, Hs1.
  split; lia.
Qed.

Lemma Account_events g g' :
  Account g g' ->
  trace g' = trace g ++ eventsSince g g' /\
  getScore (saveState g') =
    getScore (saveState g) + pointsOf (settings g) (scored (eventsSince g g')) /\
  getLives (saveState g') = getLives (saveState g) - Z.of_nat (livesLost (eventsSince g g')).
Proof.
  intros [_ (evs & Ht & Hp & Hl)]. rewrite (eventsSince_app _ _ _ Ht). auto.
Qed.

Lemma Ledger_refl g : Ledger g g.
Proof. constructor; auto using Account_refl. Qed.

Lemma Ledger_trans g g1 g2 : Ledger g g1 -> Ledger g1 g2 -> Ledger g g2.
Proof.
  intros [Ha1 Ht1 Hr1 Hs1] [Ha2 Ht2 Hr2 Hs2].
  constructor; [eapply Account_trans; eassumption | congruence | congruence | congruence].
Qed.

(** A step that records [evs], none of them a score or a life-loss event,
    and leaves the books alone. *)
Lemma Ledger_quiet evs g g' :
  saveState g' = saveState g \/
  (settings g' = settings g /\
   getScore (saveState g') = getScore (saveState g) /\
   getLives (saveState g') = getLives (saveState g) /\
   getGameTick (saveState g') = getGameTick (saveState g) /\
   getCurrentRound (saveState g') = getCurrentRound (saveState g) /\
   getCurrentCentipedeModuloGametickSlowdown (saveState g') =
     getCurrentCentipedeModuloGametickSlowdown (saveState g)) ->
  trace g' = trace g ++ evs ->
  scored evs = [] -> livesLost evs = O ->
  Ledger g g'.
Proof.
  intros Hsame Htr Hsc Hll.
  assert (H : settings g' = settings g /\
   getScore (saveState g') = getScore (saveState g) /\
   getLives (saveState g') = getLives (saveState g) /\
   getGameTick (saveState g') = getGameTick (saveState g) /\
   getCurrentRound (saveState g') = getCurrentRound (saveState g) /\
   getCurrentCentipedeModuloGametickSlowdown (saveState g') =
     getCurrentCentipedeModuloGametickSlowdown (saveState g)).
  { destruct Hsame as [Heq|H]; [|exact H]. unfold settings. rewrite Heq. auto 10. }
  destruct H as (Hs & Hp & Hl & Ht & Hr & Hd).
  constructor; auto. constructor; [exact Hs|].
  exists evs. rewrite Hsc, Hll. split; [exact Htr|].
  split; unfold pointsOf; simpl; lia.
Qed.

Lemma Ledger_log e g :
  match e with LifeLost | Scored _ => False | _ => True end -> Ledger g (log e g).
Proof.
  intros He. apply (Ledger_quiet [e]); [left; reflexivity | reflexivity | |];
    destruct e; try contradiction; reflexivity.
Qed.

Lemma Ledger_set_bullets v g : Ledger g (set_bullets v g).
Proof.
  apply (Ledger_quiet []); try reflexivity; [right; auto 10 | symmetry; apply app_nil_r].
Qed.

Lemma Ledger_set_starship v g : Ledger g (set_starship v g).
Proof.
  apply (Ledger_quiet []); try reflexivity; [right; auto 10 | symmetry; apply app_nil_r].
Qed.

Lemma Ledger_set_mushroomMap v g : Ledger g (set_mushroomMap v g).
Proof.
  apply (Ledger_quiet []); try reflexivity; [right; auto 10 | symmetry; apply app_nil_r].
Qed.

Lemma Ledger_set_centipedes v g : Ledger g (set_centipedes v g).
Proof.
  apply (Ledger_quiet []); try reflexivity; [right; auto 10 | symmetry; apply app_nil_r].
Qed.

Lemma Ledger_increaseScore type g :
  Ledger g (increaseScore type g) /\
  eventsSince g (increaseScore type g) = [Scored type].
Proof.
  assert (Htr : trace (increaseScore type g) = trace g ++ [Scored type])
    by (destruct type; reflexivity).
  split; [|apply eventsSince_app; exact Htr].
  constructor; try (destruct type; reflexivity).
  constructor; [destruct type; reflexivity|].
  exists [Scored type]. split; [exact Htr|].
  split; [destruct type; unfold pointsOf, pointsFor; state; simpl; lia|].
  destruct type; unfold livesLost; state; simpl; lia.
Qed.

Lemma Ledger_loseLive g : Ledger g (loseLive g).
Proof.
  constructor; try reflexivity.
  constructor; [reflexivity|].
  exists [LifeLost]. split; [reflexivity|].
  split; unfold pointsOf, livesLost; simpl; lia.
Qed.

(** ** States written as updates *)

Lemma updated_id g :
  updated (bullets g) (starship g) (mushroomMap g) (centipedes g) 0 [] g = g.
Proof.
  destruct g as [[] ? ? ?]. unfold updated. simpl.
  rewrite Z.add_0_r, app_nil_r. reflexivity.
Qed.

Lemma updated_updated bs ship map cs p evs bs0 ship0 map0 cs0 p0 evs0 g :
  updated bs ship map cs p evs (updated bs0 ship0 map0 cs0 p0 evs0 g) =
  updated bs ship map cs (p0 + p) (evs0 ++ evs) g.
Proof.
  unfold updated. simpl. rewrite Z.add_assoc, app_assoc. reflexivity.
Qed.

Lemma log_updated e bs ship map cs p evs g :
  log e (updated bs ship map cs p evs g) = updated bs ship map cs p (evs ++ [e]) g.
Proof. unfold updated, log. simpl. rewrite app_assoc. reflexivity. Qed.

Lemma increaseScore_updated type bs ship map cs p evs g :
  increaseScore type (updated bs ship map cs p evs g) =
  updated bs ship map cs (p + pointsFor (settings g) type) (evs ++ [Scored type]) g.
Proof.
  destruct type;
    unfold updated, pointsFor, increaseScore, addToScore, log, onSaveState, settings; simpl;
    rewrite <- Z.add_assoc, <- app_assoc; reflexivity.
Qed.

Lemma Ledger_updated bs ship map cs p evs g :
  pointsOf (settings g) (scored evs) = p -> livesLost evs = O ->
  Ledger g (updated bs ship map cs p evs g).
Proof.
  intros Hp Hl. constructor; try reflexivity.
  constructor; [reflexivity|].
  exists evs. split; [reflexivity|]. rewrite Hp, Hl. simpl. split; lia.
Qed.

Lemma scored_replicate n (type : ScoreType) :
  scored (replicate n (@Scored E type)) = replicate n type.
Proof. induction n as [|n IH]; simpl; [reflexivity|]. f_equal. exact IH. Qed.

Lemma livesLost_replicate_Scored n (type : ScoreType) :
  livesLost (replicate n (@Scored E type)) = O.
Proof. induction n as [|n IH]; [reflexivity | exact IH]. Qed.

Lemma livesLost_scanEvents evs : scanEvents evs -> livesLost evs = O.
Proof.
  induction evs as [|e evs IH]; intros H; [reflexivity|].
  assert (IH' : livesLost evs = O)
    by (apply IH; intros e' He'; apply H; right; exact He').
  destruct (H e) as [[t ->]|[c ->]]; [left| |]; exact IH'.
Qed.

(** A state that differs from [g] in the playfield, the score and the trace
    only is an update of [g]. *)
Lemma as_updated g g' bs ship map cs p evs :
  getSettings (saveState g') = getSettings (saveState g) ->
  getCurrentCentipedeModuloGametickSlowdown (saveState g') =
    getCurrentCentipedeModuloGametickSlowdown (saveState g) ->
  getCurrentRound (saveState g') = getCurrentRound (saveState g) ->
  getLives (saveState g') = getLives (saveState g) ->
  getGameTick (saveState g') = getGameTick (saveState g) ->
  gameClock_thread_ptr g' = gameClock_thread_ptr g ->
  hasDiedInRound g' = hasDiedInRound g ->
  getBullets (saveState g') = bs ->
  getStarship (saveState g') = ship ->
  getMushroomMap (saveState g') = map ->
  getCentipedes (saveState g') = cs ->
  getScore (saveState g') = getScore (saveState g) + p ->
  trace g' = trace g ++ evs ->
  g' = updated bs ship map cs p evs g.
Proof.
  destruct g' as [[] ? ? ?]. simpl. intros. subst. reflexivity.
Qed.

(** Closes [g' = updated ... g] for a [g'] built from [g] by setters. *)
Ltac by_update :=
  apply as_updated; unfold updated; state; unfold pointsFor;
  try reflexivity; try lia; try (cbn [log saveState getSettings]; lia);
  rewrite <- ?app_assoc, ?app_nil_r; simpl; try reflexivity.

(** ** Bullets against mushrooms *)

Lemma collideBulletsMushroomsLoop_updated todo :
  forall done g,
    bullets g = done ++ todo ->
    exists kept map k,
      collideBulletsMushroomsLoop done todo g =
        updated (done ++ kept) (starship g) map (centipedes g)
                (Z.of_nat k * getPointsForMushroomKill (settings g))
                (replicate k (Scored mushroomKill)) g /\
      kept `sublist_of` todo /\
      (length kept + k <= length todo)%nat.
Proof.
  induction todo as [|bullet rest IH]; intros done g Hbs.
  - exists [], (mushroomMap g), O. cbn [collideBulletsMushroomsLoop].
    split; [|split; [reflexivity | simpl; lia]].
    rewrite <- Hbs. symmetry. apply updated_id.
  - cbn [collideBulletsMushroomsLoop].
    destruct (MushroomMap_collide bullet (mushroomMap g)) as [collided map1].
    destruct collided.
    + match goal with |- context [collideBulletsMushroomsLoop done rest ?x] => set (g3 := x) end.
      destruct (IH done g3) as (kept & map & k & Hrun & Hsub & Hlen); [reflexivity|].
      rewrite Hrun. subst g3.
      match goal with |- context [if ?c then _ else _] => destruct c end.
      * exists kept, map, (S k). split; [|split; [apply sublist_cons; exact Hsub | simpl; lia]].
        by_update.
      * exists kept, map, k. split; [|split; [apply sublist_cons; exact Hsub | simpl; lia]].
        by_update.
    + destruct (IH (done ++ [bullet]) (set_mushroomMap map1 g))
        as (kept & map & k & Hrun & Hsub & Hlen).
      { change (bullets (set_mushroomMap map1 g)) with (bullets g).
        rewrite Hbs, <- app_assoc. reflexivity. }
      rewrite Hrun.
      exists (bullet :: kept), map, k.
      split; [|split; [apply sublist_skip; exact Hsub | simpl; lia]].
      by_update.
Qed.

(** ** Bullets against centipedes, the books *)

Lemma bulletLoop_updated todo :
  forall done i g,
    bullets g = done ++ todo ->
    exists kept map cs k evs,
      final (bulletLoop i done todo g) =
        updated (done ++ kept) (starship g) map cs
                (Z.of_nat k * getPointsForCentipedeHit (settings g)) evs g /\
      kept `sublist_of` todo /\
      (length kept + k = length todo)%nat /\
      scored evs = replicate k centipedeHit /\
      livesLost evs = O /\
      (length (centipedes g) <= length cs <= length (centipedes g) + k)%nat.
Proof.
  induction todo as [|bullet rest IH]; intros done i g Hbs.
  - exists [], (mushroomMap g), (centipedes g), O, []. cbn [bulletLoop final].
    split; [rewrite <- Hbs; symmetry; apply updated_id|].
    split; [reflexivity|]. split; [simpl; lia|].
    split; [reflexivity|]. split; [reflexivity|]. lia.
  - cbn [bulletLoop].
    destruct (centipedes g !! i) as [c|] eqn:Hc.
    2:{ exists (bullet :: rest), (mushroomMap g), (centipedes g), O, []. cbn [final].
        split; [rewrite <- Hbs; symmetry; apply updated_id|].
        split; [reflexivity|]. split; [simpl; lia|].
        split; [reflexivity|]. split; [reflexivity|]. lia. }
    destruct (CentipedeHead_collide bullet (mushroomMap g) c)
      as [[[hitIndicator splitOfTail_ptr] c1] map1].
    assert (Hins : length (<[i:=c1]> (centipedes g)) = length (centipedes g))
      by apply length_insert.
    destruct hitIndicator.
    + (* no hit *)
      match goal with |- context [bulletLoop i _ rest ?x] => set (g1 := x) end.
      destruct (IH (done ++ [bullet]) i g1)
        as (kept & map & cs & k & evs & Hrun & Hsub & Hlen & Hsc & Hll & Hcs).
      { subst g1. change (bullets _) with (bullets g) at 1.
        rewrite Hbs, <- app_assoc. reflexivity. }
      exists (bullet :: kept), map, cs, k, evs. rewrite Hrun.
      split; [subst g1; by_update|].
      split; [apply sublist_skip; exact Hsub|].
      split; [simpl; lia|]. split; [exact Hsc|]. split; [exact Hll|].
      subst g1. state. lia.
    + (* tail hit *)
      destruct splitOfTail_ptr as [body|].
      * match goal with |- context [bulletLoop i _ rest ?x] => set (g3 := x) end.
        destruct (IH done i g3)
          as (kept & map & cs & k & evs & Hrun & Hsub & Hlen & Hsc & Hll & Hcs);
          [reflexivity|].
        exists kept, map, cs, (S k),
          (Scored centipedeHit :: Appended (CentipedeHead_fromBody body) :: evs).
        rewrite Hrun.
        split; [subst g3; by_update|].
        split; [apply sublist_cons; exact Hsub|].
        split; [simpl; lia|].
        split; [simpl; rewrite Hsc; reflexivity|]. split; [exact Hll|].
        subst g3. state. rewrite length_app in Hcs. simpl in Hcs. lia.
      * match goal with |- context [bulletLoop i _ rest ?x] => set (g3 := x) end.
        destruct (IH done i g3)
          as (kept & map & cs & k & evs & Hrun & Hsub & Hlen & Hsc & Hll & Hcs);
          [reflexivity|].
        exists kept, map, cs, (S k), (Scored centipedeHit :: evs).
        rewrite Hrun.
        split; [subst g3; by_update|].
        split; [apply sublist_cons; exact Hsub|].
        split; [simpl; lia|].
        split; [simpl; rewrite Hsc; reflexivity|]. split; [exact Hll|].
        subst g3. state. lia.
    + (* head hit *)
      destruct splitOfTail_ptr as [body|]; cbn [final].
      * exists rest, map1, (<[i:=c1]> (centipedes g) ++ [CentipedeHead_fromBody body]), 1%nat,
          [Scored centipedeHit; Appended (CentipedeHead_fromBody body)].
        split; [by_update|].
        split; [apply sublist_cons; reflexivity|].
        split; [simpl; lia|]. split; [reflexivity|]. split; [reflexivity|].
        rewrite length_app. simpl. lia.
      * exists rest, map1, (<[i:=c1]> (centipedes g)), 1%nat, [Scored centipedeHit].
        split; [by_update|].
        split; [apply sublist_cons; reflexivity|].
        split; [simpl; lia|]. split; [reflexivity|]. split; [reflexivity|]. lia.
Qed.

(** The turn of a bullet that strikes the tail, and the rest of the scan,
    for any [collide]. *)
Lemma bulletLoop_tail_hit g i c done b rest split c1 map1 :
  centipedes g !! i = Some c ->
  CentipedeHead_collide b (mushroomMap g) c = (tailHit, split, c1, map1) ->
  let new :=
    match split with Some body => [CentipedeHead_fromBody body] | None => [] end in
  let points := getPointsForCentipedeHit (settings g) in
  let g' := updated (done ++ rest) (starship g) map1 (<[i := c1]> (centipedes g) ++ new)
                    points (Scored centipedeHit :: (Appended <$> new)) g in
  bulletLoop i done (b :: rest) g = bulletLoop i done rest g' /\
  exists headHit g'' kept k evs c',
    bulletLoop i done (b :: rest) g = Ok headHit g'' /\
    trace g'' = trace g ++ Scored centipedeHit :: (Appended <$> new) ++ evs /\
    scored evs = replicate k centipedeHit /\
    getScore (saveState g'') = getScore (saveState g) + (1 + Z.of_nat k) * points /\
    bullets g'' = done ++ kept /\
    kept `sublist_of` rest /\
    (length kept + k = length rest)%nat /\
    centipedes g'' = <[i := c']> (centipedes g) ++ new ++ appended evs.
Proof.
  intros Hc Hcollide new points g'.
  assert (Hi : (i < length (centipedes g))%nat) by (eapply lookup_lt_Some; exact Hc).
  assert (Hturn : bulletLoop i done (b :: rest) g = bulletLoop i done rest g').
  { cbn [bulletLoop]. rewrite Hc, Hcollide. f_equal. subst g' new points.
    destruct split; by_update. }
  split; [exact Hturn|]. rewrite Hturn.
  destruct (bulletLoop_spec rest done i g')
    as (headHit & g'' & evs & c' & Hrun & _ & _ & _ & Htr & _ & Hcs & _).
  { subst g'. unfold updated. state. rewrite length_app, length_insert. lia. }
  destruct (bulletLoop_updated rest done i g' eq_refl)
    as (kept & map & cs & k & evs' & Hfinal & Hsub & Hlen & Hsc & _ & _).
  rewrite Hrun in Hfinal. cbn [final] in Hfinal.
  assert (Hevs : evs' = evs).
  { apply (app_inv_head (trace g')). rewrite <- Htr, Hfinal. reflexivity. }
  subst evs'.
  exists headHit, g'', kept, k, evs, c'.
  split; [exact Hrun|].
  split; [rewrite Htr; subst g'; unfold updated; state; rewrite <- app_assoc; reflexivity|].
  split; [exact Hsc|].
  split; [rewrite Hfinal; subst g' points; unfold updated; state; simpl; lia|].
  split; [rewrite Hfinal; reflexivity|].
  split; [exact Hsub|]. split; [exact Hlen|].
  rewrite Hcs. subst g'. unfold updated. state.
  rewrite insert_app_l by (rewrite length_insert; exact Hi).
  rewrite list_insert_insert_eq, <- app_assoc. reflexivity.
Qed.

Lemma centipedeLoop_updated fuel :
  forall i g,
    exists bs map cs k evs,
      final (centipedeLoop fuel i g) =
        updated bs (starship g) map cs
                (Z.of_nat k * getPointsForCentipedeHit (settings g)) evs g /\
      bs `sublist_of` bullets g /\
      (length bs + k = length (bullets g))%nat /\
      scored evs = replicate k centipedeHit /\
      livesLost evs = O /\
      (length cs <= length (centipedes g) + k)%nat.
Proof.
  assert (Hstay : forall g,
    exists bs map cs k evs,
      g = updated bs (starship g) map cs
                (Z.of_nat k * getPointsForCentipedeHit (settings g)) evs g /\
      bs `sublist_of` bullets g /\
      (length bs + k = length (bullets g))%nat /\
      scored evs = replicate k centipedeHit /\
      livesLost evs = O /\
      (length cs <= length (centipedes g) + k)%nat).
  { intros g. exists (bullets g), (mushroomMap g), (centipedes g), O, [].
    split; [symmetry; apply updated_id|].
    split; [reflexivity|]. split; [lia|].
    split; [reflexivity|]. split; [reflexivity|]. lia. }
  induction fuel as [|fuel IH]; intros i g; cbn [centipedeLoop].
  - destruct (decide (i < length (centipedes g))%nat); cbn [final]; apply Hstay.
  - destruct (decide (i < length (centipedes g))%nat) as [Hi|_];
      [|cbn [final]; apply Hstay].
    destruct (lookup_lt_is_Some_2 _ _ Hi) as [c Hc]. rewrite Hc.
    set (gv := log (Visited c (bullets g)) g).
    destruct (bulletLoop_updated (bullets gv) [] i gv eq_refl)
      as (kept & map1 & cs1 & k1 & evs1 & Hrun & Hsub1 & Hlen1 & Hsc1 & Hll1 & Hcs1).
    assert (Hnext : forall j cs,
      (length cs <= length cs1)%nat ->
      exists bs map cs' k evs,
        final (centipedeLoop fuel j
                 (set_centipedes cs
                    (updated kept (starship gv) map1 cs1
                       (Z.of_nat k1 * getPointsForCentipedeHit (settings gv)) evs1 gv))) =
          updated bs (starship g) map cs'
                  (Z.of_nat k * getPointsForCentipedeHit (settings g)) evs g /\
        bs `sublist_of` bullets g /\
        (length bs + k = length (bullets g))%nat /\
        scored evs = replicate k centipedeHit /\
        livesLost evs = O /\
        (length cs' <= length (centipedes g) + k)%nat).
    { intros j cs Hcs.
      match goal with |- context [centipedeLoop fuel j ?x] => set (g2 := x) end.
      destruct (IH j g2)
        as (bs & map & cs' & k2 & evs2 & Hrun2 & Hsub2 & Hlen2 & Hsc2 & Hll2 & Hcs2).
      exists bs, map, cs', (k1 + k2)%nat, (Visited c (bullets g) :: evs1 ++ evs2).
      rewrite Hrun2.
      split; [subst g2 gv; by_update|].
      split; [etrans; [exact Hsub2 | exact Hsub1]|].
      split; [subst g2 gv; unfold updated in *; state; state; lia|].
      split; [simpl; rewrite scored_app, Hsc1, Hsc2, replicate_add; reflexivity|].
      split; [change (livesLost (evs1 ++ evs2) = O);
              rewrite livesLost_app, Hll1, Hll2; reflexivity|].
      subst g2 gv. unfold updated in *. state. state. lia. }
    simpl app in Hrun.
    destruct (bulletLoop i [] (bullets gv) gv) as [headHit g1|e g1]; cbn [final] in Hrun.
    + subst g1. destruct headHit.
      * (* head hit *)
        match goal with |- context [set_centipedes ?cs _] =>
          destruct (Hnext i cs) as (bs & map & cs' & k & evs & H); [|eauto 10] end.
        change (centipedes (updated _ _ _ cs1 _ _ _)) with cs1.
        assert (Hgv : centipedes gv = centipedes g) by reflexivity.
        rewrite Hgv in Hcs1.
        rewrite length_delete by (apply lookup_lt_is_Some_2; lia). lia.
      * (* no head hit *)
        destruct (Hnext (S i) cs1) as (bs & map & cs' & k & evs & H); [lia|].
        exists bs, map, cs', k, evs. exact H.
    + cbn [final]. subst g1.
      exists kept, map1, cs1, k1, (Visited c (bullets g) :: evs1).
      split; [subst gv; by_update|].
      split; [exact Hsub1|]. split; [exact Hlen1|].
      split; [exact Hsc1|]. split; [exact Hll1|]. exact (proj2 Hcs1).
Qed.

Lemma collideBulletsCentipedes_updated g :
  exists bs map cs k evs,
    collideBulletsCentipedes g =
      Ok tt (updated bs (starship g) map cs
               (Z.of_nat k * getPointsForCentipedeHit (settings g))
               (Called OcollideBulletsCentipedes :: evs) g) /\
    bs `sublist_of` bullets g /\
    (length bs + k = length (bullets g))%nat /\
    scored evs = replicate k centipedeHit /\
    livesLost evs = O /\
    (length cs <= length (centipedes g) + k)%nat.
Proof.
  destruct (collideBulletsCentipedes_spec g) as (g' & _ & Hrun & _).
  unfold collideBulletsCentipedes in Hrun |- *.
  set (g0 := log (Called OcollideBulletsCentipedes) g) in *.
  destruct (centipedeLoop_updated (length (centipedes g0) + length (bullets g0)) 0 g0)
    as (bs & map & cs & k & evs & Hfin & Hsub & Hlen & Hsc & Hll & Hcs).
  rewrite Hrun in Hfin |- *. cbn [final] in Hfin.
  exists bs, map, cs, k, evs.
  split; [f_equal; rewrite Hfin; subst g0; by_update|]. auto.
Qed.

(** ** The paths, as updates *)

Lemma spawnBulletIfNecessary_updated inp g :
  spawnBulletIfNecessary inp g =
    updated (bullets g ++ if getAndResetShot inp then [Starship_shoot (starship g)] else [])
            (starship g) (mushroomMap g) (centipedes g) 0
            [Called OspawnBulletIfNecessary] g.
Proof.
  unfold spawnBulletIfNecessary. destruct (getAndResetShot inp); by_update.
Qed.

Lemma moveBullets_updated g :
  moveBullets g =
    updated (moveBulletsLoop (bullets g)) (starship g) (mushroomMap g) (centipedes g) 0
            [Called OmoveBullets] g.
Proof. unfold moveBullets. by_update. Qed.

Lemma collideBulletsMushrooms_updated g :
  exists bs map k,
    collideBulletsMushrooms g =
      updated bs (starship g) map (centipedes g)
              (Z.of_nat k * getPointsForMushroomKill (settings g))
              (Called OcollideBulletsMushrooms :: replicate k (Scored mushroomKill)) g /\
    bs `sublist_of` bullets g /\
    (length bs + k <= length (bullets g))%nat.
Proof.
  unfold collideBulletsMushrooms.
  set (g0 := log (Called OcollideBulletsMushrooms) g).
  destruct (collideBulletsMushroomsLoop_updated (bullets g0) [] g0 eq_refl)
    as (kept & map & k & Hrun & Hsub & Hlen).
  exists kept, map, k. rewrite Hrun. split; [subst g0; by_update | auto].
Qed.

Lemma moveStarshipIfNecessary_updated inp g :
  moveStarshipIfNecessary inp g =
    updated (bullets g)
            (if decide (getAndResetDirection inp = none) then starship g
             else Starship_move (getAndResetDirection inp) (mushroomMap g) (starship g))
            (mushroomMap g) (centipedes g) 0
            [Called OmoveStarshipIfNecessary] g.
Proof.
  unfold moveStarshipIfNecessary.
  destruct (decide (getAndResetDirection inp = none)); by_update.
Qed.

Lemma moveCentipedes_updated g :
  exists cs,
    moveCentipedes g =
      updated (bullets g) (starship g) (mushroomMap g) cs 0 [Called OmoveCentipedes] g /\
    length cs = length (centipedes g).
Proof.
  unfold moveCentipedes.
  set (g0 := log (Called OmoveCentipedes) g).
  assert (H : forall l g1,
    exists cs,
      foldl (fun g i =>
               match centipedes g !! i with
               | Some centipede =>
                   set_centipedes
                     (<[i := CentipedeHead_move (mushroomMap g) (centipedes g)
                               (settings g) centipede]> (centipedes g)) g
               | None => g
               end) g1 l =
        updated (bullets g1) (starship g1) (mushroomMap g1) cs 0 [] g1 /\
      length cs = length (centipedes g1)).
  { induction l as [|i l IH]; intros g1; cbn [foldl].
    - exists (centipedes g1). split; [symmetry; apply updated_id | reflexivity].
    - destruct (centipedes g1 !! i) as [c|].
      + match goal with |- context [foldl _ ?x l] => set (g2 := x) end.
        destruct (IH g2) as (cs & Hrun & Hlen).
        exists cs. rewrite Hrun. split; [subst g2; by_update|].
        rewrite Hlen. subst g2. apply length_insert.
      + apply IH. }
  destruct (H (seq 0 (length (centipedes g0))) g0) as (cs & Hrun & Hlen).
  exists cs. rewrite Hrun. split; [subst g0; by_update | exact Hlen].
Qed.

(** X1.  Bullets against mushrooms.  [collideBulletsMushrooms] only removes
    bullets: those that remain are a sublist of those before, in order.  It
    scores [k] mushroom kills, at most one for each removed bullet, the
    score grows by [k] times the points of a mushroom kill, and centipedes,
    starship, lives and [hasDiedInRound] stay. *)
Theorem collideBulletsMushrooms_books g :
  let g' := collideBulletsMushrooms g in
  exists k,
    bullets g' `sublist_of` bullets g /\
    (length (bullets g') + k <= length (bullets g))%nat /\
    scored (eventsSince g g') = replicate k mushroomKill /\
    getScore (saveState g') =
      getScore (saveState g) + Z.of_nat k * getPointsForMushroomKill (settings g) /\
    centipedes g' = centipedes g /\
    starship g' = starship g /\
    getLives (saveState g') = getLives (saveState g) /\
    hasDiedInRound g' = hasDiedInRound g.
Proof.
  destruct (collideBulletsMushrooms_updated g) as (bs & map & k & Hrun & Hsub & Hlen).
  cbv zeta. rewrite Hrun. exists k.
  split; [exact Hsub|]. split; [exact Hlen|].
  split; [|repeat split].
  erewrite eventsSince_app by reflexivity. simpl. apply scored_replicate.
Qed.

(** X2.  Bullets against centipedes.  [collideBulletsCentipedes] returns
    from every state.  The bullets that remain are a sublist of those before;
    each of the [k] removed bullets scored one centipede hit, so the score
    grows by [k] times the points of a hit; at most [k] centipedes are added;
    starship, lives and [hasDiedInRound] stay. *)
Theorem collideBulletsCentipedes_books g :
  exists g' k,
    collideBulletsCentipedes g = Ok tt g' /\
    bullets g' `sublist_of` bullets g /\
    (length (bullets g') + k = length (bullets g))%nat /\
    scored (eventsSince g g') = replicate k centipedeHit /\
    getScore (saveState g') =
      getScore (saveState g) + Z.of_nat k * getPointsForCentipedeHit (settings g) /\
    (length (centipedes g') <= length (centipedes g) + k)%nat /\
    starship g' = starship g /\
    getLives (saveState g') = getLives (saveState g) /\
    hasDiedInRound g' = hasDiedInRound g.
Proof.
  destruct (collideBulletsCentipedes_updated g)
    as (bs & map & cs & k & evs & Hrun & Hsub & Hlen & Hsc & Hll & Hcs).
  eexists. exists k. split; [exact Hrun|].
  split; [exact Hsub|]. split; [exact Hlen|].
  split; [|split; [reflexivity|]; split; [exact Hcs|]; repeat split].
  erewrite eventsSince_app by reflexivity. simpl. exact Hsc.
Qed.

(** ** Centipedes against the starship, what is left *)

Lemma filter_length_existsb {A} (f : A -> bool) (l : list A) :
  (0 <? length (List.filter f l))%nat = existsb f l.
Proof.
  induction l as [|a l IH]; [reflexivity|].
  cbn [List.filter existsb]. destruct (f a); [reflexivity | exact IH].
Qed.

(** X3.  Centipedes against the starship, what is left.
    [collidePlayerCentipedes] never changes bullets, starship, mushroom map,
    score or settings.  Without a centipede on the cell of the starship it
    changes nothing at all.  With one or more it removes every centipede,
    also those that stand elsewhere, and marks the round. *)
Theorem collidePlayerCentipedes_cases g :
  let hit :=
    existsb (CentipedeHead_isAtPosition (Starship_getPosition (starship g)))
            (centipedes g) in
  let g' := final (collidePlayerCentipedes g) in
  bullets g' = bullets g /\
  starship g' = starship g /\
  mushroomMap g' = mushroomMap g /\
  getScore (saveState g') = getScore (saveState g) /\
  settings g' = settings g /\
  centipedes g' = (if hit then [] else centipedes g) /\
  hasDiedInRound g' = hasDiedInRound g || hit /\
  (hit = false ->
   collidePlayerCentipedes g = Ok tt (log (Called OcollidePlayerCentipedes) g)).
Proof.
  cbv zeta. rewrite collidePlayerCentipedes_eq. cbn [final].
  rewrite <- (filter_length_existsb
                 (CentipedeHead_isAtPosition (Starship_getPosition (starship g)))
                 (centipedes g)).
  set (k := length (List.filter _ (centipedes g))).
  destruct (loseLive_iter k (log (Called OcollidePlayerCentipedes) g))
    as (_ & _ & Hcs & Hf & Hbs & Hship & Hmap & Hsc & Hset).
  split; [exact Hbs|]. split; [exact Hship|]. split; [exact Hmap|].
  split; [exact Hsc|]. split; [exact Hset|].
  split; [rewrite Hcs; destruct k; reflexivity|].
  split; [exact Hf|].
  intros Hk. destruct k; [reflexivity | discriminate].
Qed.

(** ** Leaving the game through the menu *)

Lemma drain_lives n :
  forall g,
    getLives (saveState g) = Z.of_nat n ->
    let g' := Nat.iter n (fun g => if alive g then loseLive g else g) g in
    getLives (saveState g') = 0 /\
    trace g' = trace g ++ replicate n LifeLost /\
    (0 < n -> centipedes g' = [] /\ hasDiedInRound g' = true)%nat /\
    bullets g' = bullets g /\
    starship g' = starship g /\
    getScore (saveState g') = getScore (saveState g) /\
    settings g' = settings g.
Proof.
  induction n as [|n IH]; intros g Hlives.
  - cbn [Nat.iter]. cbv zeta. rewrite app_nil_r.
    repeat split; auto; intros; lia.
  - cbv zeta. rewrite Nat.iter_succ_r.
    assert (Halive : alive g = true) by (unfold alive; apply Z.ltb_lt; lia).
    rewrite Halive.
    destruct (IH (loseLive g)) as (Hl & Htr & Hcs & Hbs & Hship & Hsc & Hset).
    { state. lia. }
    split; [exact Hl|].
    split; [rewrite Htr; state; rewrite <- app_assoc; reflexivity|].
    split.
    { intros _. destruct n as [|n].
      - split; reflexivity.
      - apply Hcs. lia. }
    rewrite Hbs, Hship, Hsc, Hset. repeat split.
Qed.

(** X4.  The breakout menu.  When the menu is not asked for, or answers
    resume, or the player has no life anyway, [breakGameIfNecessary] changes
    nothing.  When the menu ends the game of a player with [n > 0] lives,
    exactly [n] life-loss events fire: no life and no centipede is left, the
    round is marked, and bullets, starship and score are untouched. *)
Theorem breakGameIfNecessary_drains_lives inp g :
  (getAndResetBreakoutMenu inp = true ->
   runBreakoutMenu inp = false ->
   0 < getLives (saveState g) ->
   let g' := breakGameIfNecessary inp g in
   getLives (saveState g') = 0 /\
   alive g' = false /\
   eventsSince g g' = replicate (Z.to_nat (getLives (saveState g))) LifeLost /\
   centipedes g' = [] /\
   hasDiedInRound g' = true /\
   bullets g' = bullets g /\
   starship g' = starship g /\
   getScore (saveState g') = getScore (saveState g)) /\
  (getAndResetBreakoutMenu inp = false \/ runBreakoutMenu inp = true \/
   getLives (saveState g) <= 0 ->
   breakGameIfNecessary inp g = g).
Proof.
  split.
  - intros Hmenu Hquit Hlives. cbv zeta.
    assert (Heq : breakGameIfNecessary inp g =
                  Nat.iter (Z.to_nat (getLives (saveState g)))
                           (fun g => if alive g then loseLive g else g) g)
      by (unfold breakGameIfNecessary; rewrite Hmenu, Hquit; reflexivity).
    rewrite Heq. clear Heq.
    destruct (drain_lives (Z.to_nat (getLives (saveState g))) g)
      as (Hl & Htr & Hcs & Hbs & Hship & Hsc & _); [lia|].
    destruct Hcs as [Hcs Hflag]; [lia|].
    split; [exact Hl|].
    split; [unfold alive at 1; rewrite Hl; reflexivity|].
    split; [apply eventsSince_app; exact Htr|].
    split; [exact Hcs|]. split; [exact Hflag|].
    split; [exact Hbs|]. split; [exact Hship | exact Hsc].
  - intros H. unfold breakGameIfNecessary.
    destruct (getAndResetBreakoutMenu inp); [|reflexivity]. cbn [negb].
    destruct (runBreakoutMenu inp); [reflexivity|].
    destruct H as [H|[H|H]]; try discriminate.
    rewrite Z2Nat.nonpos by exact H. reflexivity.
Qed.

(** ** The handlers of a tick *)

Lemma handlePlayerControlledEntities_updated inp g :
  exists bs ship map k evs,
    final (handlePlayerControlledEntities inp g) =
      updated bs ship map (centipedes g)
              (Z.of_nat k * getPointsForMushroomKill (settings g)) evs g /\
    scored evs = replicate k mushroomKill /\
    livesLost evs = O.
Proof.
  assert (Hstay : exists bs ship map k evs,
    g = updated bs ship map (centipedes g)
                (Z.of_nat k * getPointsForMushroomKill (settings g)) evs g /\
    scored evs = replicate k mushroomKill /\ livesLost evs = O).
  { exists (bullets g), (starship g), (mushroomMap g), O, [].
    split; [symmetry; apply updated_id | split; reflexivity]. }
  unfold handlePlayerControlledEntities, bind, get.
  rewrite executePathForGametick_eq.
  destruct (Int.div_error _ _) as [[|]|]; cbn [final]; try exact Hstay.
  destruct (Z.rem _ _ =? 0); cbn [negb]; [|exact Hstay].
  unfold modify. cbn [final].
  rewrite spawnBulletIfNecessary_updated, moveBullets_updated.
  match goal with |- context [collideBulletsMushrooms ?x] =>
    destruct (collideBulletsMushrooms_updated x) as (bs & map & k & Hrun & _ & _) end.
  rewrite Hrun, moveStarshipIfNecessary_updated, !updated_updated.
  eexists _, _, _, k, _. split; [by_update|].
  split.
  - rewrite !scored_app. simpl. rewrite scored_replicate, app_nil_r. reflexivity.
  - rewrite !livesLost_app.
    pose proof (livesLost_replicate_Scored k mushroomKill) as Hk.
    unfold livesLost in *. simpl. rewrite Hk. reflexivity.
Qed.


Lemma handleCentipedes_updated g :
  exists cs evs,
    final (handleCentipedes g) =
      updated (bullets g) (starship g) (mushroomMap g) cs 0 evs g /\
    length cs = length (centipedes g) /\
    scored evs = [] /\ livesLost evs = O.
Proof.
  assert (Hstay : exists cs evs,
    g = updated (bullets g) (starship g) (mushroomMap g) cs 0 evs g /\
    length cs = length (centipedes g) /\ scored evs = [] /\ livesLost evs = O).
  { exists (centipedes g), []. split; [symmetry; apply updated_id | auto]. }
  unfold handleCentipedes, bind, get.
  rewrite executePathForGametick_eq.
  destruct (Int.div_error _ _) as [[|]|]; cbn [final]; try exact Hstay.
  destruct (Z.rem _ _ =? 0); cbn [negb]; [|exact Hstay].
  unfold modify. cbn [final].
  destruct (moveCentipedes_updated g) as (cs & Hrun & Hlen).
  exists cs, [Called OmoveCentipedes]. rewrite Hrun. auto.
Qed.


Lemma Ledger_handlePlayerControlledEntities inp g :
  Ledger g (final (handlePlayerControlledEntities inp g)).
Proof.
  destruct (handlePlayerControlledEntities_updated inp g)
    as (bs & ship & map & k & evs & -> & Hsc & Hll).
  apply Ledger_updated; [|exact Hll].
  rewrite Hsc, pointsOf_replicate. reflexivity.
Qed.

Lemma Ledger_handleCentipedes g : Ledger g (final (handleCentipedes g)).
Proof.
  destruct (handleCentipedes_updated g) as (cs & evs & -> & _ & Hsc & Hll).
  apply Ledger_updated; [rewrite Hsc; reflexivity | exact Hll].
Qed.

Lemma Ledger_collideBulletsCentipedes g :
  exists g', collideBulletsCentipedes g = Ok tt g' /\ Ledger g g'.
Proof.
  destruct (collideBulletsCentipedes_updated g)
    as (bs & map & cs & k & evs & Hrun & _ & _ & Hsc & Hll & _).
  eexists. split; [exact Hrun|].
  apply Ledger_updated; [|exact Hll].
  simpl. rewrite Hsc, pointsOf_replicate. reflexivity.
Qed.

Lemma collidePlayerCentipedes_result g :
  (exists g', collidePlayerCentipedes g = Ok tt g') \/
  (exists g', collidePlayerCentipedes g = Stop InvalidIterator g').
Proof. rewrite collidePlayerCentipedes_eq. left. eauto. Qed.

Lemma Ledger_loseLive_iter k g : Ledger g (Nat.iter k loseLive g).
Proof.
  induction k as [|k IH]; cbn [Nat.iter]; [apply Ledger_refl|].
  eapply Ledger_trans; [exact IH | apply Ledger_loseLive].
Qed.

Lemma Ledger_collidePlayerCentipedes g :
  Ledger g (final (collidePlayerCentipedes g)).
Proof.
  rewrite collidePlayerCentipedes_eq. cbn [final].
  eapply Ledger_trans;
    [apply (Ledger_log (Called OcollidePlayerCentipedes)); exact I
    | apply Ledger_loseLive_iter].
Qed.

Lemma Ledger_collisions g :
  Ledger g (final ((collideBulletsCentipedes ;;; collidePlayerCentipedes) g)).
Proof.
  unfold bind. destruct (Ledger_collideBulletsCentipedes g) as (g' & -> & H).
  eapply Ledger_trans; [exact H | apply Ledger_collidePlayerCentipedes].
Qed.

Lemma collisions_result g :
  (exists g', (collideBulletsCentipedes ;;; collidePlayerCentipedes) g = Ok tt g') \/
  (exists g', (collideBulletsCentipedes ;;; collidePlayerCentipedes) g =
              Stop InvalidIterator g').
Proof.
  unfold bind. destruct (Ledger_collideBulletsCentipedes g) as (g' & -> & _).
  apply collidePlayerCentipedes_result.
Qed.

Lemma handleGlobalCollisions_eq g :
  handleGlobalCollisions g =
    let tick := getGameTick (saveState g) in
    let player := getStarshipModuloGametickSlowdown (settings g) in
    let centipede := getCurrentCentipedeModuloGametickSlowdown (saveState g) in
    match Int.div_error tick player with
    | Some Int.ByZero => Stop DivisionByZero g
    | Some Int.Overflow => Stop DivisionOverflow g
    | None =>
        if Z.rem tick player =? 0
        then (collideBulletsCentipedes ;;; collidePlayerCentipedes) g
        else
          match Int.div_error tick centipede with
          | Some Int.ByZero => Stop DivisionByZero g
          | Some Int.Overflow => Stop DivisionOverflow g
          | None =>
              if Z.rem tick centipede =? 0
              then (collideBulletsCentipedes ;;; collidePlayerCentipedes) g
              else Ok tt g
          end
    end.
Proof.
  cbv zeta. unfold handleGlobalCollisions, bind, get.
  rewrite executePathForGametick_eq.
  destruct (Int.div_error _ (getStarshipModuloGametickSlowdown _)) as [[|]|];
    try reflexivity.
  destruct (Z.rem _ (getStarshipModuloGametickSlowdown _) =? 0); cbn [negb];
    [reflexivity|].
  rewrite executePathForGametick_eq.
  destruct (Int.div_error _ _) as [[|]|]; try reflexivity.
  destruct (Z.rem _ _ =? 0); reflexivity.
Qed.

Lemma handleGlobalCollisions_facts g :
  Ledger g (final (handleGlobalCollisions g)) /\
  (forall a b,
      gate (getGameTick (saveState g))
           (getStarshipModuloGametickSlowdown (settings g)) = Some a ->
      gate (getGameTick (saveState g))
           (getCurrentCentipedeModuloGametickSlowdown (saveState g)) = Some b ->
      (exists g', handleGlobalCollisions g = Ok tt g') \/
      (exists g', handleGlobalCollisions g = Stop InvalidIterator g')).
Proof.
  rewrite handleGlobalCollisions_eq. cbv zeta. unfold gate.
  destruct (Int.div_error _ (getStarshipModuloGametickSlowdown _)) as [[|]|];
    cbn [final]; try (split; [apply Ledger_refl | discriminate]).
  destruct (Z.rem _ (getStarshipModuloGametickSlowdown _) =? 0).
  - split; [apply Ledger_collisions | intros; apply collisions_result].
  - destruct (Int.div_error _ _) as [[|]|];
      cbn [final]; try (split; [apply Ledger_refl | discriminate]).
    destruct (Z.rem _ _ =? 0).
    + split; [apply Ledger_collisions | intros; apply collisions_result].
    + split; [apply Ledger_refl | intros; left; eauto].
Qed.

Lemma Ledger_breakGameIfNecessary inp g : Ledger g (breakGameIfNecessary inp g).
Proof.
  unfold breakGameIfNecessary.
  destruct (getAndResetBreakoutMenu inp); simpl; [|apply Ledger_refl].
  destruct (runBreakoutMenu inp); [apply Ledger_refl|].
  induction (Z.to_nat (getLives (saveState g))) as [|n IH]; simpl.
  - apply Ledger_refl.
  - eapply Ledger_trans; [apply IH|].
    match goal with |- context [if alive ?x then _ else _] => destruct (alive x) end;
      [apply Ledger_loseLive | apply Ledger_refl].
Qed.

(** ** One tick, the books *)

Lemma Ledger_gameTick env g :
  Ledger (incrementGameTick g) (final (gameTick env g)).
Proof.
  unfold gameTick. unfold bind at 1, modify at 1. unfold bind at 1, get at 1.
  set (g1 := incrementGameTick g).
  set (inp := inputAt env (getGameTick (saveState g1))).
  pose proof (Ledger_handlePlayerControlledEntities inp g1) as H1.
  unfold bind at 1.
  destruct (handlePlayerControlledEntities inp g1) as [[] g2|e g2]; cbn [final] in *;
    [|exact H1].
  pose proof (Ledger_handleCentipedes g2) as H2.
  unfold bind at 1.
  destruct (handleCentipedes g2) as [[] g3|e g3]; cbn [final] in *;
    [|eapply Ledger_trans; eassumption].
  pose proof (proj1 (handleGlobalCollisions_facts g3)) as H3.
  unfold bind at 1.
  destruct (handleGlobalCollisions g3) as [[] g4|e g4]; cbn [final] in *;
    [|eapply Ledger_trans; [exact H1|]; eapply Ledger_trans; eassumption].
  unfold bind, modify. cbn [final].
  eapply Ledger_trans; [exact H1|]. eapply Ledger_trans; [exact H2|].
  eapply Ledger_trans; [exact H3|].
  eapply Ledger_trans; [apply (Ledger_log (Called OprintGame)); exact I|].
  apply Ledger_breakGameIfNecessary.
Qed.

Lemma Account_incrementGameTick g : Account g (incrementGameTick g).
Proof.
  constructor; [reflexivity|]. exists [].
  split; [symmetry; apply app_nil_r|].
  split; unfold pointsOf, livesLost; simpl; lia.
Qed.

Lemma Account_gameTick env g : Account g (final (gameTick env g)).
Proof.
  eapply Account_trans; [apply Account_incrementGameTick|].
  apply ledger_account, Ledger_gameTick.
Qed.


Lemma gameTick_eq env g :
  gameTick env g =
    let g1 := incrementGameTick g in
    let inp := inputAt env (getGameTick (saveState g1)) in
    match handlePlayerControlledEntities inp g1 with
    | Stop e g2 => Stop e g2
    | Ok _ g2 =>
        match handleCentipedes g2 with
        | Stop e g3 => Stop e g3
        | Ok _ g3 =>
            match handleGlobalCollisions g3 with
            | Stop e g4 => Stop e g4
            | Ok _ g4 => Ok tt (breakGameIfNecessary inp (printGame g4))
            end
        end
    end.
Proof. reflexivity. Qed.



(** ** The start of a round *)

Lemma calculateCentipedeSlowdown_eq s r g :
  calculateCentipedeSlowdown s r g =
    match Int.div_error r (getCentipedeSpeedIncrementRoundModuloSlowdown s) with
    | Some Int.ByZero => Stop DivisionByZero g
    | Some Int.Overflow => Stop DivisionOverflow g
    | None =>
        Ok (Int.sub (getInitialCentipedeModuloGametickSlowdown s)
              (Int.mul (Z.quot r (getCentipedeSpeedIncrementRoundModuloSlowdown s))
                 (getCentipedeSpeedIncrementAmount s))) g
    end.
Proof.
  unfold calculateCentipedeSlowdown, int_div, bind.
  destruct (Int.div_error _ _) as [[|]|]; reflexivity.
Qed.

Lemma calculateCentipedeSize_eq s r g :
  calculateCentipedeSize s r g =
    match Int.div_error r (getCentipedeSizeIncrementRoundModuloSlowdown s) with
    | Some Int.ByZero => Stop DivisionByZero g
    | Some Int.Overflow => Stop DivisionOverflow g
    | None =>
        Ok (Int.add (getInitialCentipedeSize s)
              (Int.mul (Z.quot r (getCentipedeSizeIncrementRoundModuloSlowdown s))
                 (getCentipedeSizeIncrementAmount s))) g
    end.
Proof.
  unfold calculateCentipedeSize, int_div, bind.
  destruct (Int.div_error _ _) as [[|]|]; reflexivity.
Qed.

Lemma startNextRound_eq env g :
  startNextRound env g =
    let g1 := incrementCurrentRound (log (Called OstartNextRound) g) in
    let r := getCurrentRound (saveState g1) in
    let s := settings g1 in
    match calculateCentipedeSlowdown s r g1 with
    | Stop e g2 => Stop e g2
    | Ok currentSlowdown g2 =>
        let g3 := setCurrentCentipedeModuloGametickSlowdown currentSlowdown g2 in
        match calculateCentipedeSize s r g3 with
        | Stop e g4 => Stop e g4
        | Ok currentSize g4 =>
            Ok tt (set_centipedes
                     (centipedes g4
                      ++ [CentipedeHead_new (getCentipedeSpawnLine s)
                            (getCentipedeSpawnColumn s)
                            (getRandomCentipedeMovingDirection (rollRandomWithChance env r))
                            s currentSize]) g4)
        end
    end.
Proof. reflexivity. Qed.

(** X7.  The centipede of a new round.  [startNextRound] appends exactly one
    centipede, built at the spawn cell of the settings with the direction of
    the roll and the size
    [initialSize + floor(r / sizeIncrementInterval) * sizeIncrementAmount]
    for the new round [r], for [r >= 0], a positive size increment interval,
    a speed increment interval other than 0 and values within [int];
    bullets, starship, score, lives and [hasDiedInRound] stay. *)
Theorem startNextRound_spawns_one_centipede env g :
  let s := settings g in
  let r := getCurrentRound (saveState g) + 1 in
  let size :=
    getInitialCentipedeSize s
    + r / getCentipedeSizeIncrementRoundModuloSlowdown s * getCentipedeSizeIncrementAmount s in
  0 <= r ->
  getCentipedeSpeedIncrementRoundModuloSlowdown s <> 0 ->
  0 < getCentipedeSizeIncrementRoundModuloSlowdown s ->
  Int.in_range (r / getCentipedeSizeIncrementRoundModuloSlowdown s
                * getCentipedeSizeIncrementAmount s) ->
  Int.in_range size ->
  calculateCentipedeSize s r g = Ok size g /\
  (exists g',
      startNextRound env g = Ok tt g' /\
      centipedes g' =
        centipedes g
        ++ [CentipedeHead_new (getCentipedeSpawnLine s) (getCentipedeSpawnColumn s)
              (if rollRandomWithChance env r then cLeft else cRight) s size] /\
      bullets g' = bullets g /\
      starship g' = starship g /\
      getScore (saveState g') = getScore (saveState g) /\
      getLives (saveState g') = getLives (saveState g) /\
      getGameTick (saveState g') = getGameTick (saveState g) /\
      hasDiedInRound g' = hasDiedInRound g /\
      eventsSince g g' = [Called OstartNextRound]).
Proof.
  intros s r size Hr Hspeed Hsize Hmul Hadd.
  assert (Hcalc : forall g0 : GameLogic E, calculateCentipedeSize s r g0 = Ok size g0).
  { intros g0. unfold calculateCentipedeSize, int_div, bind.
    rewrite Int_div_error_None by (unfold Int.min; lia).
    unfold ret, Int.add, Int.mul. unfold size in *.
    rewrite Z.quot_div_nonneg by lia.
    rewrite (Int_wrap_in_range _ Hmul), (Int_wrap_in_range _ Hadd). reflexivity. }
  split; [apply Hcalc|].
  rewrite startNextRound_eq. cbv zeta.
  change (settings (incrementCurrentRound (log (Called OstartNextRound) g))) with s.
  change (getCurrentRound (saveState (incrementCurrentRound (log (Called OstartNextRound) g))))
    with r.
  rewrite calculateCentipedeSlowdown_eq.
  rewrite Int_div_error_None by (auto; unfold Int.min; lia).
  rewrite Hcalc.
  eexists. split; [reflexivity|].
  repeat split.
  unfold eventsSince. state. rewrite drop_app_length. reflexivity.
Qed.

(** X8.  A size or speed increment interval of 0.  [startNextRound] stops on
    the division by zero after it has incremented the round, and appends no
    centipede. *)
Theorem startNextRound_stops_on_zero_interval env g :
  getCentipedeSpeedIncrementRoundModuloSlowdown (settings g) = 0 \/
  getCentipedeSizeIncrementRoundModuloSlowdown (settings g) = 0 ->
  getCurrentRound (saveState g) + 1 <> Int.min ->
  exists g',
    startNextRound env g = Stop DivisionByZero g' /\
    getCurrentRound (saveState g') = getCurrentRound (saveState g) + 1 /\
    centipedes g' = centipedes g.
Proof.
  intros Hzero Hr.
  rewrite startNextRound_eq. cbv zeta.
  change (settings (incrementCurrentRound (log (Called OstartNextRound) g)))
    with (settings g).
  change (getCurrentRound (saveState (incrementCurrentRound (log (Called OstartNextRound) g))))
    with (getCurrentRound (saveState g) + 1).
  rewrite calculateCentipedeSlowdown_eq.
  destruct (Z.eq_dec (getCentipedeSpeedIncrementRoundModuloSlowdown (settings g)) 0)
    as [Hspeed|Hspeed].
  - rewrite Hspeed. cbn [Int.div_error Z.eqb].
    eexists. split; [reflexivity|]. split; reflexivity.
  - destruct Hzero as [Hzero|Hzero]; [contradiction|].
    rewrite Int_div_error_None by auto.
    rewrite calculateCentipedeSize_eq, Hzero. cbn [Int.div_error Z.eqb].
    eexists. split; [reflexivity|]. split; reflexivity.
Qed.

(** ** Rounds and the game loop, the books *)

Lemma Account_quiet evs g g' :
  settings g' = settings g ->
  getScore (saveState g') = getScore (saveState g) ->
  getLives (saveState g') = getLives (saveState g) ->
  trace g' = trace g ++ evs ->
  scored evs = [] -> livesLost evs = O ->
  Account g g'.
Proof.
  intros Hs Hp Hl Htr Hsc Hll. constructor; [exact Hs|].
  exists evs. rewrite Hsc, Hll. split; [exact Htr|].
  split; unfold pointsOf; simpl; lia.
Qed.

Lemma Account_startNextRound env g : Account g (final (startNextRound env g)).
Proof.
  rewrite startNextRound_eq. cbv zeta.
  rewrite calculateCentipedeSlowdown_eq.
  destruct (Int.div_error _ _) as [[|]|]; cbn [final];
    try (apply (Account_quiet [Called OstartNextRound]); reflexivity).
  rewrite calculateCentipedeSize_eq.
  destruct (Int.div_error _ _) as [[|]|]; cbn [final];
    apply (Account_quiet [Called OstartNextRound]); reflexivity.
Qed.

Lemma Account_endRound g : Account g (endRound g).
Proof.
  unfold endRound. destruct (hasDiedInRound g); cbn [negb].
  - apply ledger_account, Ledger_log. exact I.
  - apply ledger_account, Ledger_increaseScore.
Qed.

Lemma Account_playRound env fuel :
  forall g, Account g (final (playRound fuel env g)).
Proof.
  induction fuel as [|fuel IH]; intros g; cbn [playRound].
  - destruct (alive g && continueRound (centipedes g)); apply Account_refl.
  - destruct (alive g && continueRound (centipedes g)); [|apply Account_refl].
    unfold bind. pose proof (Account_gameTick env g) as H.
    destruct (gameTick env g) as [[] g1|e g1]; cbn [final] in *; [|exact H].
    eapply Account_trans; [exact H | apply IH].
Qed.

Lemma playRounds_eq rounds ticks env g :
  playRounds (S rounds) ticks env g =
    if alive g then
      match startNextRound env g with
      | Stop e g1 => Stop e g1
      | Ok _ g1 =>
          match playRound ticks env g1 with
          | Stop e g2 => Stop e g2
          | Ok _ g2 => playRounds rounds ticks env (endRound g2)
          end
      end
    else Ok tt g.
Proof. reflexivity. Qed.

Lemma Account_playRounds env ticks rounds :
  forall g, Account g (final (playRounds rounds ticks env g)).
Proof.
  induction rounds as [|rounds IH]; intros g.
  - cbn [playRounds]. destruct (alive g); apply Account_refl.
  - rewrite playRounds_eq. destruct (alive g); [|apply Account_refl].
    pose proof (Account_startNextRound env g) as H1.
    destruct (startNextRound env g) as [[] g1|e g1]; cbn [final] in *; [|exact H1].
    pose proof (Account_playRound env ticks g1) as H2.
    destruct (playRound ticks env g1) as [[] g2|e g2]; cbn [final] in *;
      [|eapply Account_trans; eassumption].
    eapply Account_trans; [exact H1|]. eapply Account_trans; [exact H2|].
    eapply Account_trans; [apply Account_endRound | apply IH].
Qed.

Lemma Step_endRound g : Step [] g (endRound g).
Proof.
  unfold endRound. destruct (hasDiedInRound g); cbn [negb].
  - apply (Step_log (Slept _)). exact I.
  - apply Step_increaseScore.
Qed.

Lemma Step_playRounds env ticks rounds :
  forall g, exists cs, Step cs g (final (playRounds rounds ticks env g)).
Proof.
  induction rounds as [|rounds IH]; intros g.
  - exists []. cbn [playRounds]. destruct (alive g); apply Step_refl.
  - rewrite playRounds_eq. destruct (alive g); [|exists []; apply Step_refl].
    pose proof (Step_startNextRound env g) as H1.
    destruct (startNextRound env g) as [[] g1|e g1]; cbn [final] in *; [|eauto].
    destruct (Step_playRound env ticks g1) as (cs2 & H2).
    destruct (playRound ticks env g1) as [[] g2|e g2]; cbn [final] in *.
    + destruct (IH (endRound g2)) as (cs3 & H3).
      eexists. eapply Step_trans; [exact H1|]. eapply Step_trans; [exact H2|].
      eapply Step_trans; [apply Step_endRound | exact H3].
    + eexists. eapply Step_trans; eassumption.
Qed.

Lemma playRound_exit env fuel :
  forall g g',
    playRound fuel env g = Ok tt g' ->
    alive g' && continueRound (centipedes g') = false.
Proof.
  induction fuel as [|fuel IH]; intros g g'; cbn [playRound].
  - destruct (alive g && continueRound (centipedes g)) eqn:Hgo; [discriminate|].
    intros [= <-]. exact Hgo.
  - destruct (alive g && continueRound (centipedes g)) eqn:Hgo.
    + unfold bind. destruct (gameTick env g) as [[] g1|e g1]; [apply IH | discriminate].
    + intros [= <-]. exact Hgo.
Qed.

Lemma playRounds_exit env ticks rounds :
  forall g g', playRounds rounds ticks env g = Ok tt g' -> alive g' = false.
Proof.
  induction rounds as [|rounds IH]; intros g g'.
  - cbn [playRounds]. destruct (alive g) eqn:Ha; [discriminate|]. intros [= <-]. exact Ha.
  - rewrite playRounds_eq. destruct (alive g) eqn:Ha; [|intros [= <-]; exact Ha].
    destruct (startNextRound env g) as [[] g1|e g1]; [|discriminate].
    destruct (playRound ticks env g1) as [[] g2|e g2]; [apply IH | discriminate].
Qed.

Lemma gameLoop_eq rounds ticks env g :
  gameLoop rounds ticks env g =
    match gameClock_thread_ptr g with
    | Some _ => Stop (LogicError "Game Clock already running.") g
    | None =>
        match playRounds rounds ticks env
                (set_gameClock_thread_ptr
                   (Some {| clockTickLength := getGameTickLength (settings g) |}) g) with
        | Stop e g1 => Stop e g1
        | Ok _ g1 =>
            Ok tt (waitForGameClock
                     (if getLives (saveState g1) <=? 0 then loseGame g1 else g1))
        end
    end.
Proof.
  unfold gameLoop, bind, get, startGameClock.
  destruct (gameClock_thread_ptr g); [reflexivity|].
  destruct (playRounds _ _ _ _) as [[] g1|e g1]; [|reflexivity].
  destruct (getLives (saveState g1) <=? 0); reflexivity.
Qed.

(** X9.  The end of the game loop.  When [gameLoop] returns, no clock was
    running before, the player has no life left, the game over screen is the
    last thing shown, and the clock handle is null again.  Over the whole
    game the score has grown by the points of the score events and the lives
    have shrunk by the number of life-loss events. *)
Theorem gameLoop_returns_at_game_over rounds ticks env g g' :
  gameLoop rounds ticks env g = Ok tt g' ->
  gameClock_thread_ptr g = None /\
  gameClock_thread_ptr g' = None /\
  getLives (saveState g') <= 0 /\
  (exists evs, trace g' = trace g ++ evs ++ [Called OloseGame]) /\
  settings g' = settings g /\
  getScore (saveState g') =
    getScore (saveState g) + pointsOf (settings g) (scored (eventsSince g g')) /\
  getLives (saveState g') =
    getLives (saveState g) - Z.of_nat (livesLost (eventsSince g g')).
Proof.
  rewrite gameLoop_eq.
  destruct (gameClock_thread_ptr g) eqn:Hptr; [discriminate|].
  set (g0 := set_gameClock_thread_ptr _ g).
  pose proof (Account_playRounds env ticks rounds g0) as Hacc.
  pose proof (playRounds_exit env ticks rounds g0) as Hexit.
  destruct (playRounds rounds ticks env g0) as [[] g1|e g1]; [|discriminate].
  cbn [final] in Hacc. specialize (Hexit g1 eq_refl).
  assert (Hdead : getLives (saveState g1) <= 0)
    by (unfold alive in Hexit; apply Z.ltb_ge; exact Hexit).
  assert (Hle : (getLives (saveState g1) <=? 0) = true) by (apply Z.leb_le; exact Hdead).
  rewrite Hle. intros [= <-].
  split; [reflexivity|]. split; [reflexivity|]. split; [exact Hdead|].
  destruct Hacc as [Hs (evs & Htr & Hp & Hl)].
  assert (Htrace : trace (waitForGameClock (loseGame g1)) = trace g ++ evs ++ [Called OloseGame]).
  { state. rewrite Htr. subst g0. state. rewrite <- app_assoc. reflexivity. }
  split; [exists evs; exact Htrace|].
  split; [exact Hs|].
  rewrite (eventsSince_app _ _ _ Htrace).
  rewrite scored_app, livesLost_app, pointsOf_app.
  change (getScore (saveState (waitForGameClock (loseGame g1)))) with (getScore (saveState g1)).
  change (getLives (saveState (waitForGameClock (loseGame g1)))) with (getLives (saveState g1)).
  rewrite Hp, Hl. subst g0. unfold pointsOf, livesLost. state. simpl. split; lia.
Qed.

Lemma framesShown_app evs1 evs2 :
  framesShown (evs1 ++ evs2) = (framesShown evs1 + framesShown evs2)%nat.
Proof. unfold framesShown. rewrite calls_app, List.filter_app, length_app. reflexivity. Qed.

Lemma gameTick_frame env g g' :
  gameTick env g = Ok tt g' -> framesShown (eventsSince g g') = 1%nat.
Proof.
  rewrite gameTick_eq. cbv zeta.
  set (g1 := incrementGameTick g).
  set (inp := inputAt env (getGameTick (saveState g1))).
  pose proof (Step_incrementGameTick g) as S0. fold g1 in S0.
  pose proof (Step_handlePlayerControlledEntities inp g1) as S1.
  set (a := gate _ _) in S1.
  destruct (handlePlayerControlledEntities inp g1) as [[] g2|e g2]; [|discriminate].
  pose proof (Step_handleCentipedes g2) as S2.
  set (b := gate _ _) in S2.
  destruct (handleCentipedes g2) as [[] g3|e g3]; [|discriminate].
  pose proof (Step_handleGlobalCollisions g3) as S3.
  set (c := gate _ (getStarshipModuloGametickSlowdown _)) in S3.
  set (d := gate _ _) in S3.
  destruct (handleGlobalCollisions g3) as [[] g4|e g4]; [|discriminate].
  intros [= <-]. cbn [final] in *.
  assert (S4 : Step [OprintGame] g4 (breakGameIfNecessary inp (printGame g4))).
  { eapply Step_calls;
      [eapply Step_trans; [apply Step_printGame | apply Step_breakGameIfNecessary]|].
    reflexivity. }
  pose proof (Step_trans _ _ _ _ _ S0 (Step_trans _ _ _ _ _ S1
               (Step_trans _ _ _ _ _ S2 (Step_trans _ _ _ _ _ S3 S4)))) as S.
  destruct (Step_events _ _ _ S) as (_ & Hcalls & _).
  unfold framesShown. rewrite Hcalls.
  destruct a as [[]|], b as [[]|], c as [[]|], d as [[]|]; reflexivity.
Qed.

Lemma playRound_frames env fuel :
  forall g g',
    playRound fuel env g = Ok tt g' ->
    exists evs,
      trace g' = trace g ++ evs /\
      getGameTick (saveState g') = getGameTick (saveState g) + Z.of_nat (framesShown evs) /\
      getCurrentRound (saveState g') = getCurrentRound (saveState g).
Proof.
  induction fuel as [|fuel IH]; intros g g'; cbn [playRound].
  - destruct (alive g && continueRound (centipedes g)); [discriminate|].
    intros [= <-]. exists []. rewrite app_nil_r. unfold framesShown. simpl.
    repeat split. lia.
  - destruct (alive g && continueRound (centipedes g)).
    2:{ intros [= <-]. exists []. rewrite app_nil_r. unfold framesShown. simpl.
        repeat split. lia. }
    unfold bind.
    pose proof (Ledger_gameTick env g) as [[_ (evs1 & Htr1 & _)] Htick Hround _].
    pose proof (gameTick_frame env g) as Hframe.
    destruct (gameTick env g) as [[] g1|e g1]; [|discriminate].
    cbn [final] in *. specialize (Hframe g1 eq_refl).
    change (trace (incrementGameTick g)) with (trace g) in Htr1.
    rewrite (eventsSince_app _ _ _ Htr1) in Hframe.
    intros Hrun. destruct (IH g1 g' Hrun) as (evs & Htr & Ht & Hr).
    exists (evs1 ++ evs). rewrite Htr, Htr1, <- app_assoc.
    split; [reflexivity|].
    rewrite framesShown_app, Hframe, Ht, Hr, Htick, Hround.
    change (getGameTick (saveState (incrementGameTick g)))
      with (getGameTick (saveState g) + 1).
    split; [lia | reflexivity].
Qed.

(** X10.  The round loop.  It returns only when the player has no life left
    or no centipede is left, and then at once: entered in such a state it
    returns the state as it is.  A round that returns has rendered every one
    of its ticks once: the game tick has advanced by the number of frames
    shown, and the round number has not changed. *)
Theorem playRound_ends_without_centipedes env fuel g g' :
  playRound fuel env g = Ok tt g' ->
  (getLives (saveState g') <= 0 \/ centipedes g' = []) /\
  getGameTick (saveState g') =
    getGameTick (saveState g) + Z.of_nat (framesShown (eventsSince g g')) /\
  getCurrentRound (saveState g') = getCurrentRound (saveState g) /\
  (getLives (saveState g) <= 0 \/ centipedes g = [] -> g' = g).
Proof.
  intros Hrun.
  assert (Hstop : forall g0 : GameLogic E,
             alive g0 && continueRound (centipedes g0) = false <->
             getLives (saveState g0) <= 0 \/ centipedes g0 = []).
  { intros g0. unfold alive, continueRound. rewrite andb_false_iff, Z.ltb_ge, Nat.ltb_ge.
    destruct (centipedes g0); simpl; split; intros [H|H]; auto; try lia; discriminate. }
  split; [apply Hstop; eapply playRound_exit; exact Hrun|].
  destruct (playRound_frames env fuel g g' Hrun) as (evs & Htr & Ht & Hr).
  rewrite (eventsSince_app _ _ _ Htr).
  split; [exact Ht|]. split; [exact Hr|].
  intros Hg. apply Hstop in Hg.
  destruct fuel; cbn [playRound] in Hrun; rewrite Hg in Hrun; congruence.
Qed.

(** ** Scoring *)

Lemma pointsOf_Permutation s ts ts' : ts ≡ₚ ts' -> pointsOf s ts = pointsOf s ts'.
Proof.
  induction 1 as [|t ts ts' _ IH|t t' ts|ts ts' ts'' _ IH1 _ IH2]; simpl.
  - reflexivity.
  - unfold pointsOf in *. simpl. rewrite IH. reflexivity.
  - unfold pointsOf. simpl. lia.
  - congruence.
Qed.

Lemma increaseScore_fold ts :
  forall g,
    let g' := foldl (fun g type => increaseScore type g) g ts in
    settings g' = settings g /\
    getScore (saveState g') = getScore (saveState g) + pointsOf (settings g) ts /\
    trace g' = trace g ++ (Scored <$> ts).
Proof.
  induction ts as [|t ts IH]; intros g; cbn [foldl].
  - cbv zeta. unfold pointsOf. simpl. rewrite app_nil_r. repeat split. lia.
  - destruct (IH (increaseScore t g)) as (Hs & Hp & Htr). cbv zeta.
    rewrite Hs, Hp, Htr.
    split; [destruct t; reflexivity|].
    split; [|destruct t; state; simpl; rewrite <- app_assoc; reflexivity].
    unfold pointsOf. destruct t; unfold pointsFor; state; simpl; lia.
Qed.

(** X11.  Scoring.  After any sequence of score events the score has grown by
    the configured points of each event: by [N*pk + M*ph + R*pr] for [N]
    mushroom kills, [M] centipede hits and [R] round ends, whatever their
    order. *)
Theorem increaseScore_adds_up g (ts ts' : list ScoreType) :
  let after types := foldl (fun g type => increaseScore type g) g types in
  let count type := Z.of_nat (length (List.filter (fun t => bool_decide (t = type)) ts)) in
  getScore (saveState (after ts)) =
    getScore (saveState g)
    + count mushroomKill * getPointsForMushroomKill (settings g)
    + count centipedeHit * getPointsForCentipedeHit (settings g)
    + count roundEnd * getPointsForRoundEnd (settings g) /\
  (ts ≡ₚ ts' -> getScore (saveState (after ts')) = getScore (saveState (after ts))).
Proof.
  cbv zeta. split.
  - destruct (increaseScore_fold ts g) as (_ & -> & _).
    rewrite <- !Z.add_assoc. f_equal.
    induction ts as [|t ts IH]; [reflexivity|].
    change (pointsOf (settings g) (t :: ts))
      with (pointsFor (settings g) t + pointsOf (settings g) ts).
    rewrite IH. destruct t; simpl; unfold pointsFor; lia.
  - intros Hperm.
    destruct (increaseScore_fold ts g) as (_ & -> & _).
    destruct (increaseScore_fold ts' g) as (_ & -> & _).
    rewrite (pointsOf_Permutation _ _ _ Hperm). reflexivity.
Qed.

(** ** Edge cases of the collision pass *)

Lemma centipedeLoop_without_bullets fuel :
  forall i g,
    bullets g = [] ->
    (length (centipedes g) - i <= fuel)%nat ->
    exists g',
      centipedeLoop fuel i g = Ok tt g' /\
      saveState g' = saveState g /\
      gameClock_thread_ptr g' = gameClock_thread_ptr g /\
      hasDiedInRound g' = hasDiedInRound g /\
      trace g' = trace g ++ ((fun c => Visited c []) <$> drop i (centipedes g)).
Proof.
  induction fuel as [|fuel IH]; intros i g Hbs Hfuel; cbn [centipedeLoop].
  - destruct (decide (i < length (centipedes g))%nat) as [Hi|Hi]; [lia|].
    exists g. rewrite drop_ge by lia. simpl. rewrite app_nil_r. auto.
  - destruct (decide (i < length (centipedes g))%nat) as [Hi|Hi].
    2:{ exists g. rewrite drop_ge by lia. simpl. rewrite app_nil_r. auto. }
    destruct (lookup_lt_is_Some_2 _ _ Hi) as [c Hc]. rewrite Hc. cbv zeta.
    change (bullets (log (Visited c (bullets g)) g)) with (bullets g).
    rewrite Hbs. cbn [bulletLoop].
    destruct (IH (S i) (log (Visited c []) g)) as (g' & Hrun & Hs & Ht & Hf & Htr);
      [exact Hbs | change (centipedes (log (Visited c []) g)) with (centipedes g); lia|].
    exists g'. split; [exact Hrun|]. split; [exact Hs|]. split; [exact Ht|].
    split; [exact Hf|]. rewrite Htr.
    change (centipedes (log (Visited c []) g)) with (centipedes g).
    rewrite (drop_S _ _ _ Hc). state. rewrite <- app_assoc. reflexivity.
Qed.

(** X12.  A pass without bullets, or without centipedes, changes nothing in
    the game: it visits each centipede once, in order, and scores nothing. *)
Theorem collideBulletsCentipedes_without_bullets g :
  bullets g = [] \/ centipedes g = [] ->
  exists g',
    collideBulletsCentipedes g = Ok tt g' /\
    saveState g' = saveState g /\
    hasDiedInRound g' = hasDiedInRound g /\
    eventsSince g g' =
      Called OcollideBulletsCentipedes
      :: ((fun c => Visited c (bullets g)) <$> centipedes g).
Proof.
  intros [Hbs|Hcs]; unfold collideBulletsCentipedes.
  - set (g0 := log (Called OcollideBulletsCentipedes) g).
    destruct (centipedeLoop_without_bullets
                (length (centipedes g0) + length (bullets g0)) 0 g0)
      as (g' & Hrun & Hs & _ & Hf & Htr); [exact Hbs | lia|].
    exists g'. split; [exact Hrun|]. split; [exact Hs|]. split; [exact Hf|].
    apply eventsSince_app. rewrite Htr. subst g0. state.
    rewrite Hbs, <- app_assoc. reflexivity.
  - exists (log (Called OcollideBulletsCentipedes) g). split.
    + change (centipedes (log (Called OcollideBulletsCentipedes) g)) with (centipedes g).
      generalize (length (centipedes g) + length (bullets (log (Called OcollideBulletsCentipedes) g)))%nat.
      intros fuel. destruct fuel; cbn [centipedeLoop];
        change (centipedes (log (Called OcollideBulletsCentipedes) g)) with (centipedes g);
        rewrite Hcs; reflexivity.
    + split; [reflexivity|]. split; [reflexivity|].
      rewrite Hcs. apply eventsSince_app. reflexivity.
Qed.

(** ** What the paths leave alone *)

(** X13.  The player path.  [handlePlayerControlledEntities] never changes the
    centipedes, the lives, [hasDiedInRound], the round, the game tick or the
    slowdown; the only points it scores are those of mushroom kills; and on
    a tick on which the path is not due it changes nothing at all. *)
Theorem handlePlayerControlledEntities_frame inp g :
  let g' := final (handlePlayerControlledEntities inp g) in
  let tick := getGameTick (saveState g) in
  let player := getStarshipModuloGametickSlowdown (settings g) in
  centipedes g' = centipedes g /\
  getLives (saveState g') = getLives (saveState g) /\
  hasDiedInRound g' = hasDiedInRound g /\
  getCurrentRound (saveState g') = getCurrentRound (saveState g) /\
  getGameTick (saveState g') = tick /\
  getCurrentCentipedeModuloGametickSlowdown (saveState g') =
    getCurrentCentipedeModuloGametickSlowdown (saveState g) /\
  (exists k,
      scored (eventsSince g g') = replicate k mushroomKill /\
      getScore (saveState g') =
        getScore (saveState g) + Z.of_nat k * getPointsForMushroomKill (settings g)) /\
  (player <> 0 -> tick <> Int.min -> tick mod player <> 0 ->
   handlePlayerControlledEntities inp g = Ok tt g).
Proof.
  cbv zeta.
  destruct (handlePlayerControlledEntities_updated inp g)
    as (bs & ship & map & k & evs & -> & Hsc & _).
  repeat (split; [reflexivity|]).
  split.
  - exists k. split; [|reflexivity].
    erewrite eventsSince_app by reflexivity. exact Hsc.
  - intros Hp Ht Hmod.
    unfold handlePlayerControlledEntities, bind, get.
    rewrite executePathForGametick_eq, Int_div_error_None by auto.
    replace (Z.rem _ _ =? 0) with false; [reflexivity|].
    symmetry. apply Z.eqb_neq. rewrite rem_zero_iff_mod_zero by exact Hp. exact Hmod.
Qed.

(** X14.  The centipede path.  [handleCentipedes] leaves the number of
    centipedes as it is and never changes bullets, starship, mushroom map,
    score, lives or [hasDiedInRound]; on a tick on which the path is not due
    it changes nothing at all. *)
Theorem handleCentipedes_frame g :
  let g' := final (handleCentipedes g) in
  let tick := getGameTick (saveState g) in
  let centipede := getCurrentCentipedeModuloGametickSlowdown (saveState g) in
  length (centipedes g') = length (centipedes g) /\
  bullets g' = bullets g /\
  starship g' = starship g /\
  mushroomMap g' = mushroomMap g /\
  getScore (saveState g') = getScore (saveState g) /\
  getLives (saveState g') = getLives (saveState g) /\
  hasDiedInRound g' = hasDiedInRound g /\
  (centipede <> 0 -> tick <> Int.min -> tick mod centipede <> 0 ->
   handleCentipedes g = Ok tt g).
Proof.
  cbv zeta.
  destruct (handleCentipedes_updated g) as (cs & evs & -> & Hlen & _ & _).
  split; [exact Hlen|].
  repeat (split; [first [reflexivity | unfold updated; state; simpl; lia]|]).
  intros Hc Ht Hmod.
  unfold handleCentipedes, bind, get.
  rewrite executePathForGametick_eq, Int_div_error_None by auto.
  replace (Z.rem _ _ =? 0) with false; [reflexivity|].
  symmetry. apply Z.eqb_neq. rewrite rem_zero_iff_mod_zero by exact Hc. exact Hmod.
Qed.

(** X16.  A game that is already lost.  [gameLoop] on a state without lives
    and without a running clock plays no round: it shows the game over
    screen and returns, the state otherwise as it was. *)
Theorem gameLoop_on_lost_game rounds ticks env g :
  gameClock_thread_ptr g = None ->
  getLives (saveState g) <= 0 ->
  exists g',
    gameLoop rounds ticks env g = Ok tt g' /\
    saveState g' = saveState g /\
    gameClock_thread_ptr g' = None /\
    hasDiedInRound g' = hasDiedInRound g /\
    trace g' = trace g ++ [Called OloseGame].
Proof.
  intros Hptr Hlives. rewrite gameLoop_eq, Hptr.
  assert (Hdead : alive (set_gameClock_thread_ptr
                           (Some {| clockTickLength := getGameTickLength (settings g) |}) g)
                  = false) by (unfold alive; apply Z.ltb_ge; exact Hlives).
  assert (Hrounds : playRounds rounds ticks env
                      (set_gameClock_thread_ptr
                         (Some {| clockTickLength := getGameTickLength (settings g) |}) g) =
                    Ok tt (set_gameClock_thread_ptr
                             (Some {| clockTickLength := getGameTickLength (settings g) |}) g)).
  { destruct rounds; cbn [playRounds]; rewrite Hdead; reflexivity. }
  rewrite Hrounds.
  change (getLives (saveState (set_gameClock_thread_ptr _ g))) with (getLives (saveState g)).
  replace (getLives (saveState g) <=? 0) with true by (symmetry; apply Z.leb_le; exact Hlives).
  eexists. split; [reflexivity|]. repeat split.
Qed.

(** ** Bullets and starship on the player path *)

Lemma moveBulletsLoop_length (todo : list Bullet) :
  (length (moveBulletsLoop todo) <= length todo)%nat.
Proof.
  induction todo as [|bullet rest IH]; cbn [moveBulletsLoop]; [lia|].
  destruct (Bullet_move bullet) as [[] moved]; simpl; lia.
Qed.

(** X17.  Bullets and starship on the player path.  One call of
    [handlePlayerControlledEntities] adds at most one bullet, and none
    without a shot; the starship stays where it is unless a direction was
    entered. *)
Theorem handlePlayerControlledEntities_bullets inp g :
  let g' := final (handlePlayerControlledEntities inp g) in
  (length (bullets g') <= length (bullets g) + (if getAndResetShot inp then 1 else 0))%nat /\
  (getAndResetDirection inp = none -> starship g' = starship g).
Proof.
  cbv zeta.
  unfold handlePlayerControlledEntities, bind, get.
  rewrite executePathForGametick_eq.
  destruct (Int.div_error _ _) as [[|]|]; cbn [final];
    try (split; [destruct (getAndResetShot inp); lia | reflexivity]).
  destruct (Z.rem _ _ =? 0); cbn [negb];
    [|unfold ret; cbn [final]; split; [destruct (getAndResetShot inp); lia | reflexivity]].
  unfold modify. cbn [final].
  rewrite spawnBulletIfNecessary_updated, moveBullets_updated.
  match goal with |- context [collideBulletsMushrooms ?x] =>
    destruct (collideBulletsMushrooms_updated x) as (bs & map & k & Hrun & _ & Hlen) end.
  rewrite Hrun, moveStarshipIfNecessary_updated.
  unfold updated in *. state. state. split.
  - pose proof (moveBulletsLoop_length
                  (getBullets (saveState g)
                   ++ (if getAndResetShot inp
                       then [Starship_shoot (getStarship (saveState g))] else []))) as Hmove.
    rewrite length_app in Hmove.
    destruct (getAndResetShot inp); simpl in Hmove; lia.
  - intros Hnone. destruct (decide (getAndResetDirection inp = none)); [reflexivity | contradiction].
Qed.

End Books.

(** * The split of a centipede, on the entities of the design document *)

Section OnSpecModel.

Import SpecModel.

Lemma struck_Some p segs d :
  struck p segs = Some d -> (d < length segs)%nat /\ segs !! d = Some p.
Proof.
  revert d. induction segs as [|s segs IH]; intros d H; simpl in H; [discriminate|].
  destruct (decide (s = p)) as [->|Hne].
  - injection H as <-. simpl. split; [lia | reflexivity].
  - destruct (struck p segs) as [d'|]; [|discriminate].
    injection H as <-. destruct (IH d' eq_refl) as [Hlt Hlook].
    simpl. split; [lia | exact Hlook].
Qed.

(** C1.  In the scan of the bullets against the centipede at [i], of
    length [L], a bullet that strikes the segment at depth [d > 0] is a tail
    hit.  After its turn the state is [g'], which differs from the state
    before in this only: the centipede at [i] keeps its first [d] segments
    (the segments [d] to [L-1] are gone), the bullet is taken out of the
    bullets, one centipede-hit event is scored, and the [L-1-d] segments
    behind the struck one are appended to the collection as one new
    centipede when [d < L-1], nothing when [d = L-1].  The scan goes on from
    [g'] with the bullets that are left, against the shortened centipede.
    It returns, and in the state it returns the events of the turn are
    followed by those of the bullets left, the score counts the hit, the
    struck bullet is not among the bullets, and the new centipede stands in
    the collection behind the centipedes that were there.  When the struck
    bullet was the last one the scan returns [g'] itself. *)
Theorem tail_hit_splits_centipede lines columns (g : GameLogic (entities lines columns))
    (i : nat) (c : @CentipedeHead (entities lines columns))
    (done : list (@Bullet (entities lines columns))) (b : @Bullet (entities lines columns))
    (rest : list (@Bullet (entities lines columns))) (d : nat) :
  centipedes g !! i = Some c ->
  struck b (segments c) = Some d ->
  (0 < d)%nat ->
  let L := length (segments c) in
  let shortened : @CentipedeHead (entities lines columns) :=
    {| segments := take d (segments c); movingDirection := movingDirection c |} in
  let behind : @CentipedeHead (entities lines columns) :=
    {| segments := drop (S d) (segments c); movingDirection := movingDirection c |} in
  let new := if decide (d < L - 1)%nat then [behind] else [] in
  let points := getPointsForCentipedeHit (settings g) in
  let g' :=
    updated (done ++ rest) (starship g) (mushroomMap g)
            (<[i := shortened]> (centipedes g) ++ new) points
            (Scored centipedeHit :: (Appended <$> new)) g in
  (d < L)%nat /\
  length (segments shortened) = d /\
  length (segments behind) = (L - 1 - d)%nat /\
  bulletLoop i done (b :: rest) g = bulletLoop i done rest g' /\
  centipedes g' !! i = Some shortened /\
  exists headHit g'' kept k evs c',
    bulletLoop i done (b :: rest) g = Ok headHit g'' /\
    eventsSince g g'' = Scored centipedeHit :: (Appended <$> new) ++ evs /\
    scored evs = replicate k centipedeHit /\
    getScore (saveState g'') = getScore (saveState g) + (1 + Z.of_nat k) * points /\
    bullets g'' = done ++ kept /\
    kept `sublist_of` rest /\
    (length kept + k = length rest)%nat /\
    centipedes g'' = <[i := c']> (centipedes g) ++ new ++ appended evs /\
    (rest = [] -> headHit = false /\ g'' = g').
Proof.
  intros Hc Hstruck Hd L shortened behind new points g'.
  destruct (struck_Some _ _ _ Hstruck) as [HdL _]. fold L in HdL.
  assert (Hi : (i < length (centipedes g))%nat) by (eapply lookup_lt_Some; exact Hc).
  split; [exact HdL|].
  split; [simpl; rewrite length_take; fold L; lia|].
  split; [simpl; rewrite length_drop; fold L; lia|].
  assert (Hcollide :
    CentipedeHead_collide (Entities := entities lines columns) b (mushroomMap g) c =
      (tailHit,
       (if decide (d < L - 1)%nat then Some behind else None),
       shortened, mushroomMap g)).
  { cbn [CentipedeHead_collide entities]. unfold chain_collide. rewrite Hstruck.
    destruct d as [|d]; [lia|]. fold shortened.
    assert (Hlen : length (drop (S (S d)) (segments c)) = (L - 1 - S d)%nat)
      by (rewrite length_drop; fold L; lia).
    subst behind.
    match goal with |- context [match ?x with [] => None | _ => _ end] =>
      destruct x as [|s behind'] eqn:Hdrop end.
    - destruct (decide (S d < L - 1)%nat) as [Hlt|_]; [|reflexivity].
      simpl in Hlen. lia.
    - destruct (decide (S d < L - 1)%nat) as [_|Hn]; [reflexivity|].
      simpl in Hlen. lia. }
  subst g' new.
  destruct (decide (d < L - 1)%nat) as [Hlt|Hge];
    destruct (bulletLoop_tail_hit g i c done b rest _ _ _ Hc Hcollide)
      as (Hturn & headHit & g'' & kept & k & evs & c' &
          Hrun & Htr & Hsc & Hscore & Hbs & Hsub & Hlen & Hcs);
    (split; [exact Hturn|]);
    (split;
     [unfold updated; state;
      rewrite lookup_app_l by (rewrite length_insert; exact Hi);
      apply list_lookup_insert_eq; exact Hi|]);
    exists headHit, g'', kept, k, evs, c';
    (split; [exact Hrun|]);
    (split; [apply eventsSince_app; exact Htr|]);
    (split; [exact Hsc|]); (split; [exact Hscore|]); (split; [exact Hbs|]);
    (split; [exact Hsub|]); (split; [exact Hlen|]); (split; [exact Hcs|]);
    intros ->; rewrite Hturn in Hrun; cbn [bulletLoop] in Hrun;
    injection Hrun as <- <-; split; reflexivity.
Qed.

End OnSpecModel.

(** * Further runs *)

Lemma tail_hit_splits_centipede_witness :
  centipedes twoBullets !! 0%nat = Some five /\
  struck (cell 0 2) (segments five) = Some 2%nat /\
  (0 < 2)%nat /\
  (exists headHit g'' kept evs,
      bulletLoop (E := field) 0 [] [cell 0 2; cell 0 1] twoBullets = Ok headHit g'' /\
      eventsSince twoBullets g'' =
        @Scored field centipedeHit
        :: @Appended field {| segments := [cell 0 1; cell 0 0]; movingDirection := cRight |}
        :: evs /\
      bullets g'' = kept /\
      kept `sublist_of` [cell 0 1]) /\
  centipedes (playing quick 1 1 [five] [cell 0 0]) !! 0%nat = Some five /\
  struck (cell 0 0) (segments five) = Some 4%nat /\
  (0 < 4)%nat /\
  exists g',
    bulletLoop (E := field) 0 [] [cell 0 0] (playing quick 1 1 [five] [cell 0 0]) =
      Ok false g' /\
    centipedes g' =
      [ {| segments := [cell 0 4; cell 0 3; cell 0 2; cell 0 1]; movingDirection := cRight |} ] /\
    bullets g' = [] /\
    trace g' = [@Scored field centipedeHit] /\
    getScore (saveState g') = 10.
Proof.
  split; [reflexivity|]. split; [reflexivity|]. split; [lia|].
  split.
  - destruct (tail_hit_splits_centipede 10 10 twoBullets 0 five [] (cell 0 2) [cell 0 1] 2
                eq_refl eq_refl ltac:(lia))
      as (_ & _ & _ & _ & _ & headHit & g'' & kept & k & evs & c' &
          Hrun & Hev & _ & _ & Hbs & Hsub & _).
    exists headHit, g'', kept, evs.
    split; [exact Hrun|]. split; [exact Hev|]. split; [exact Hbs | exact Hsub].
  - split; [reflexivity|]. split; [reflexivity|]. split; [lia|].
    destruct (tail_hit_splits_centipede 10 10 (playing quick 1 1 [five] [cell 0 0]) 0 five
                [] (cell 0 0) [] 4 eq_refl eq_refl ltac:(lia))
      as (_ & _ & _ & _ & _ & headHit & g'' & kept & k & evs & c' &
          Hrun & _ & _ & _ & _ & _ & _ & _ & Hlast).
    destruct (Hlast eq_refl) as [-> ->].
    eexists. split; [exact Hrun|]. repeat split.
Defined.

Lemma collidePlayerCentipedes_cases_witness :
  existsb (chain_isAtPosition (starship bothDue)) (centipedes bothDue) = false /\
  collidePlayerCentipedes bothDue = Ok tt (log (Called OcollidePlayerCentipedes) bothDue) /\
  existsb (chain_isAtPosition (cell 9 5)) (five :: onStarship) = true /\
  centipedes (final (collidePlayerCentipedes (playing quick 1 1 (five :: onStarship) []))) = [] /\
  hasDiedInRound (final (collidePlayerCentipedes (playing quick 1 1 (five :: onStarship) [])))
    = true.
Proof.
  assert (Hno : existsb (chain_isAtPosition (starship bothDue)) (centipedes bothDue) = false)
    by reflexivity.
  split; [exact Hno|].
  destruct (collidePlayerCentipedes_cases bothDue) as (_ & _ & _ & _ & _ & _ & _ & Hsame).
  split; [exact (Hsame Hno)|].
  split; [reflexivity|].
  destruct (collidePlayerCentipedes_cases (playing quick 1 1 (five :: onStarship) []))
    as (_ & _ & _ & _ & _ & Hcs & Hflag & _).
  split; [exact Hcs | exact Hflag].
Defined.

Lemma breakGameIfNecessary_drains_lives_witness :
  getAndResetBreakoutMenu quit = true /\
  runBreakoutMenu quit = false /\
  0 < getLives (saveState bothDue) /\
  getLives (saveState (breakGameIfNecessary quit bothDue)) = 0 /\
  eventsSince bothDue (breakGameIfNecessary quit bothDue) =
    [@LifeLost field; @LifeLost field; @LifeLost field] /\
  centipedes (breakGameIfNecessary quit bothDue) = [] /\
  breakGameIfNecessary idle bothDue = bothDue /\
  getLives (saveState lost) <= 0 /\
  breakGameIfNecessary quit lost = lost.
Proof.
  assert (Hm : getAndResetBreakoutMenu quit = true) by reflexivity.
  assert (Hq : runBreakoutMenu quit = false) by reflexivity.
  assert (Hl : 0 < getLives (saveState bothDue)) by reflexivity.
  repeat (split; [assumption|]).
  destruct (proj1 (breakGameIfNecessary_drains_lives quit bothDue) Hm Hq Hl)
    as (Hl0 & _ & Hev & Hcs & _).
  split; [exact Hl0|]. split; [exact Hev|]. split; [exact Hcs|].
  split; [apply (proj2 (breakGameIfNecessary_drains_lives idle bothDue)); left; reflexivity|].
  assert (Hdead : getLives (saveState lost) <= 0) by discriminate.
  split; [exact Hdead|].
  apply (proj2 (breakGameIfNecessary_drains_lives quit lost)). right. right. exact Hdead.
Defined.



Lemma startNextRound_spawns_one_centipede_witness :
  0 <= getCurrentRound (saveState round5) + 1 /\
  getCentipedeSpeedIncrementRoundModuloSlowdown paced <> 0 /\
  0 < getCentipedeSizeIncrementRoundModuloSlowdown paced /\
  Int.in_range (6 / 4 * 2) /\
  Int.in_range (10 + 6 / 4 * 2) /\
  calculateCentipedeSize paced 6 round5 = Ok 12 round5 /\
  exists g',
    startNextRound (shootAt 0) round5 = Ok tt g' /\
    centipedes g' = [@CentipedeHead_new field 0 0 cRight paced 12] /\
    eventsSince round5 g' = [@Called field OstartNextRound].
Proof.
  assert (Hr : 0 <= getCurrentRound (saveState round5) + 1) by discriminate.
  assert (Hs : getCentipedeSpeedIncrementRoundModuloSlowdown paced <> 0) by discriminate.
  assert (Hi : 0 < getCentipedeSizeIncrementRoundModuloSlowdown paced) by reflexivity.
  assert (Hm : Int.in_range (6 / 4 * 2)) by (split; discriminate).
  assert (Ha : Int.in_range (10 + 6 / 4 * 2)) by (split; discriminate).
  repeat (split; [assumption|]).
  destruct (startNextRound_spawns_one_centipede (shootAt 0) round5 Hr Hs Hi Hm Ha)
    as (Hsize & g' & Hrun & Hcs & _ & _ & _ & _ & _ & _ & Hev).
  split; [exact Hsize|].
  exists g'. split; [exact Hrun|]. split; [exact Hcs | exact Hev].
Defined.

Lemma startNextRound_stops_on_zero_interval_witness :
  (getCentipedeSpeedIncrementRoundModuloSlowdown (settings (playing unsized 1 1 [five] [])) = 0 \/
   getCentipedeSizeIncrementRoundModuloSlowdown (settings (playing unsized 1 1 [five] [])) = 0) /\
  getCurrentRound (saveState (playing unsized 1 1 [five] [])) + 1 <> Int.min /\
  exists g',
    startNextRound (shootAt 0) (playing unsized 1 1 [five] []) = Stop DivisionByZero g' /\
    getCurrentRound (saveState g') = 2 /\
    centipedes g' = [five].
Proof.
  assert (Hz : getCentipedeSpeedIncrementRoundModuloSlowdown
                 (settings (playing unsized 1 1 [five] [])) = 0 \/
               getCentipedeSizeIncrementRoundModuloSlowdown
                 (settings (playing unsized 1 1 [five] [])) = 0) by (right; reflexivity).
  assert (Hr : getCurrentRound (saveState (playing unsized 1 1 [five] [])) + 1 <> Int.min)
    by discriminate.
  repeat (split; [assumption|]).
  destruct (startNextRound_stops_on_zero_interval (shootAt 0) (playing unsized 1 1 [five] [])
              Hz Hr) as (g' & Hrun & Hround & Hcs).
  exists g'. split; [exact Hrun|]. split; [exact Hround | exact Hcs].
Defined.

Lemma gameLoop_returns_at_game_over_witness :
  gameLoop 4 10 (shootAt 1) fresh = Ok tt (final (gameLoop 4 10 (shootAt 1) fresh)) /\
  gameClock_thread_ptr (final (gameLoop 4 10 (shootAt 1) fresh)) = None /\
  getLives (saveState (final (gameLoop 4 10 (shootAt 1) fresh))) <= 0 /\
  getScore (saveState (final (gameLoop 4 10 (shootAt 1) fresh))) = 110.
Proof.
  assert (Hrun : gameLoop 4 10 (shootAt 1) fresh =
                 Ok tt (final (gameLoop 4 10 (shootAt 1) fresh)))
    by (vm_compute; reflexivity).
  split; [exact Hrun|].
  destruct (gameLoop_returns_at_game_over 4 10 (shootAt 1) fresh _ Hrun)
    as (_ & Hptr & Hlives & _ & _ & Hscore & _).
  split; [exact Hptr|]. split; [exact Hlives|].
  rewrite Hscore. vm_compute. reflexivity.
Defined.

Lemma playRound_ends_without_centipedes_witness :
  playRound 10 (shootAt 1) (final (startNextRound (shootAt 1) (started false))) =
    Ok tt (firstRound false) /\
  (getLives (saveState (firstRound false)) <= 0 \/ centipedes (firstRound false) = []) /\
  getGameTick (saveState (firstRound false)) = 0 + Z.of_nat 1 /\
  playRound 10 (shootAt 1) (firstRound false) = Ok tt (firstRound false).
Proof.
  assert (Hrun : playRound 10 (shootAt 1) (final (startNextRound (shootAt 1) (started false))) =
                 Ok tt (firstRound false)) by (vm_compute; reflexivity).
  assert (Hagain : playRound 10 (shootAt 1) (firstRound false) = Ok tt (firstRound false))
    by (vm_compute; reflexivity).
  split; [exact Hrun|].
  destruct (playRound_ends_without_centipedes (shootAt 1) 10 _ _ Hrun)
    as (Hend & Hticks & _ & _).
  split; [exact Hend|]. split; [exact Hticks | exact Hagain].
Defined.

Lemma increaseScore_adds_up_witness :
  [mushroomKill; roundEnd; mushroomKill] ≡ₚ [roundEnd; mushroomKill; mushroomKill] /\
  getScore (saveState (foldl (fun g type => increaseScore type g) bothDue
                         [mushroomKill; roundEnd; mushroomKill])) = 110 /\
  getScore (saveState (foldl (fun g type => increaseScore type g) bothDue
                         [roundEnd; mushroomKill; mushroomKill])) = 110.
Proof.
  assert (Hperm : [mushroomKill; roundEnd; mushroomKill] ≡ₚ [roundEnd; mushroomKill; mushroomKill])
    by apply perm_swap.
  split; [exact Hperm|].
  destruct (increaseScore_adds_up bothDue [mushroomKill; roundEnd; mushroomKill]
              [roundEnd; mushroomKill; mushroomKill]) as [Hsum Hsame].
  split; [exact Hsum|].
  rewrite (Hsame Hperm). exact Hsum.
Defined.

Lemma collideBulletsCentipedes_without_bullets_witness :
  (bullets bothDue = [] \/ centipedes bothDue = []) /\
  exists g',
    collideBulletsCentipedes bothDue = Ok tt g' /\
    saveState g' = saveState bothDue /\
    eventsSince bothDue g' =
      [@Called field OcollideBulletsCentipedes; @Visited field five []].
Proof.
  assert (H : bullets bothDue = [] \/ centipedes bothDue = []) by (left; reflexivity).
  split; [exact H|].
  destruct (collideBulletsCentipedes_without_bullets bothDue H) as (g' & Hrun & Hs & _ & Hev).
  exists g'. split; [exact Hrun|]. split; [exact Hs | exact Hev].
Defined.

Lemma handlePlayerControlledEntities_frame_witness :
  getStarshipModuloGametickSlowdown (settings stalled) <> 0 /\
  getGameTick (saveState stalled) <> Int.min /\
  getGameTick (saveState stalled) mod getStarshipModuloGametickSlowdown (settings stalled) <> 0 /\
  handlePlayerControlledEntities fire stalled = Ok tt stalled.
Proof.
  assert (Hp : getStarshipModuloGametickSlowdown (settings stalled) <> 0) by discriminate.
  assert (Ht : getGameTick (saveState stalled) <> Int.min) by discriminate.
  assert (Hm : getGameTick (saveState stalled)
               mod getStarshipModuloGametickSlowdown (settings stalled) <> 0) by discriminate.
  repeat (split; [assumption|]).
  destruct (handlePlayerControlledEntities_frame fire stalled)
    as (_ & _ & _ & _ & _ & _ & _ & Hskip).
  exact (Hskip Hp Ht Hm).
Defined.

Lemma handleCentipedes_frame_witness :
  getCurrentCentipedeModuloGametickSlowdown (saveState gated) <> 0 /\
  getGameTick (saveState gated) <> Int.min /\
  getGameTick (saveState gated)
    mod getCurrentCentipedeModuloGametickSlowdown (saveState gated) <> 0 /\
  handleCentipedes gated = Ok tt gated.
Proof.
  assert (Hc : getCurrentCentipedeModuloGametickSlowdown (saveState gated) <> 0)
    by discriminate.
  assert (Ht : getGameTick (saveState gated) <> Int.min) by discriminate.
  assert (Hm : getGameTick (saveState gated)
               mod getCurrentCentipedeModuloGametickSlowdown (saveState gated) <> 0)
    by discriminate.
  repeat (split; [assumption|]).
  destruct (handleCentipedes_frame gated) as (_ & _ & _ & _ & _ & _ & _ & Hskip).
  exact (Hskip Hc Ht Hm).
Defined.

Lemma gameLoop_on_lost_game_witness :
  gameClock_thread_ptr lost = None /\
  getLives (saveState lost) <= 0 /\
  exists g',
    gameLoop 0 0 (shootAt 0) lost = Ok tt g' /\
    saveState g' = saveState lost /\
    trace g' = [@Called field OloseGame].
Proof.
  assert (Hptr : gameClock_thread_ptr lost = None) by reflexivity.
  assert (Hl : getLives (saveState lost) <= 0) by discriminate.
  repeat (split; [assumption|]).
  destruct (gameLoop_on_lost_game 0 0 (shootAt 0) lost Hptr Hl)
    as (g' & Hrun & Hs & _ & _ & Htr).
  exists g'. split; [exact Hrun|]. split; [exact Hs | exact Htr].
Defined.

Lemma handlePlayerControlledEntities_bullets_witness :
  getAndResetDirection fire = none /\
  (length (bullets (final (handlePlayerControlledEntities fire bothDue))) <= 1)%nat /\
  starship (final (handlePlayerControlledEntities fire bothDue)) = starship bothDue.
Proof.
  assert (Hd : getAndResetDirection fire = none) by reflexivity.
  split; [exact Hd|].
  destruct (handlePlayerControlledEntities_bullets fire bothDue) as [Hlen Hship].
  split; [exact Hlen | exact (Hship Hd)].
Defined.
